(** * DiffWhisperer: the [DiffAnalyzer] class of [diffwhisperer/analyzer.py]

    A shallow embedding of the analyzer and the properties of its
    pipeline: collect the staged diffs, summarise them, call the
    generation backend, format the answer. *)

From Stdlib Require Import Ascii String.
From Stdlib Require Import List Bool Arith NArith ZArith Lia.
From Stdlib Require Import Floats.
Import ListNotations.

(** The float literals of the source denote their nearest binary64 value,
    in Python as here. *)
Set Warnings "-inexact-float".

(** ** Python strings

    A Python [str] is a sequence of Unicode code points.  Literals of the
    source, all ASCII, are written with [lit]. *)

Module Str.

Definition char := N.
Definition str := list char.

Definition lit (s : String.string) : str :=
  List.map Ascii.N_of_ascii (String.list_ascii_of_string s).
Arguments lit s%_string.

Definition eq_dec : forall a b : str, {a = b} + {a <> b} :=
  list_eq_dec N.eq_dec.

Definition eqb (a b : str) : bool :=
  if eq_dec a b then true else false.

(** [bool(s)]: a string is truthy when it is not empty. *)
Definition truthy (s : str) : bool :=
  match s with [] => false | _ :: _ => true end.

(** The code points [str.strip()] removes: CPython's
    [_PyUnicode_IsWhitespace]. *)
Definition isspace (c : char) : bool :=
  ((9 <=? c) && (c <=? 13) || (28 <=? c) && (c <=? 32)
   || (c =? 133) || (c =? 160) || (c =? 5760)
   || (8192 <=? c) && (c <=? 8202)
   || (c =? 8232) || (c =? 8233) || (c =? 8239) || (c =? 8287)
   || (c =? 12288))%N.

Fixpoint lstrip (s : str) : str :=
  match s with
  | [] => []
  | c :: s' => if isspace c then lstrip s' else s
  end.

Definition rstrip (s : str) : str := rev (lstrip (rev s)).

(** [s.strip()] *)
Definition strip (s : str) : str := rstrip (lstrip s).

(** [s.startswith(p)] *)
Fixpoint startswith (p s : str) : bool :=
  match p, s with
  | [], _ => true
  | _ :: _, [] => false
  | a :: p', b :: s' => (a =? b)%N && startswith p' s'
  end.

(** [s.split(c)] for a separator of one character: the pieces between the
    occurrences of [c], never an empty list. *)
Fixpoint split_char (c : char) (s : str) : list str :=
  match s with
  | [] => [[]]
  | x :: s' =>
      if (x =? c)%N then [] :: split_char c s'
      else match split_char c s' with
           | [] => [[x]]
           | p :: ps => (x :: p) :: ps
           end
  end.

(** The scan of [s.split(sep, 1)]: the text before the leftmost occurrence
    of [sep] and the text after it. *)
Fixpoint partition_first (sep s : str) : option (str * str) :=
  if startswith sep s then Some ([], skipn (length sep) s)
  else match s with
       | [] => None
       | c :: s' =>
           match partition_first sep s' with
           | Some (a, b) => Some (c :: a, b)
           | None => None
           end
       end.

(** [s.split(sep, 1)] for a non-empty [sep]. *)
Definition split1 (sep s : str) : list str :=
  match partition_first sep s with
  | Some (a, b) => [a; b]
  | None => [s]
  end.

(** [sep.join(parts)] *)
Fixpoint join (sep : str) (parts : list str) : str :=
  match parts with
  | [] => []
  | [p] => p
  | p :: ps => p ++ sep ++ join sep ps
  end.

Definition digit (d : N) : char := (48 + d)%N.

Fixpoint of_uint (u : Decimal.uint) : str :=
  match u with
  | Decimal.Nil => []
  | Decimal.D0 u => digit 0 :: of_uint u
  | Decimal.D1 u => digit 1 :: of_uint u
  | Decimal.D2 u => digit 2 :: of_uint u
  | Decimal.D3 u => digit 3 :: of_uint u
  | Decimal.D4 u => digit 4 :: of_uint u
  | Decimal.D5 u => digit 5 :: of_uint u
  | Decimal.D6 u => digit 6 :: of_uint u
  | Decimal.D7 u => digit 7 :: of_uint u
  | Decimal.D8 u => digit 8 :: of_uint u
  | Decimal.D9 u => digit 9 :: of_uint u
  end.

(** [str(n)] for the result of a [len]. *)
Definition of_nat (n : nat) : str := of_uint (Nat.to_uint n).

End Str.

Import Str.

(** ** Results, exceptions and the trace of external calls *)

Module Py.

(** An instance of [Exception]: its class and [str(e)].  Signals that are
    not instances of [Exception] ([KeyboardInterrupt], [SystemExit]) are
    outside the model. *)
Record Exception := { exc_class : str; exc_str : str }.

Inductive result (A : Type) : Type :=
| Return (a : A)
| Raise (e : Exception).
Arguments Return {A} a.
Arguments Raise {A} e.

Definition ValueError (msg : str) : Exception :=
  {| exc_class := lit "ValueError"; exc_str := msg |}.

Definition IndexError (msg : str) : Exception :=
  {| exc_class := lit "IndexError"; exc_str := msg |}.

(** [genai.types.GenerationConfig(...)] *)
Record GenerationConfig := {
  max_output_tokens : Z;
  temperature : float;
  top_p : float;
  top_k : Z
}.

(** The calls that leave the process, with their arguments. *)
Inductive Event :=
| EvRepo (repo_path : str)
| EvConfigure (api_key : str)
| EvGenerativeModel (model_name : str)
| EvListModels
| EvIndexDiff (other : option str)
| EvGitDiff (args : list str)
| EvGenerateContent (prompt : str) (generation_config : GenerationConfig).

Definition is_generate (ev : Event) : bool :=
  match ev with EvGenerateContent _ _ => true | _ => false end.

(** A computation returns or raises, and records the external calls it
    made, oldest first. *)
Definition M (A : Type) : Type := (result A * list Event)%type.

Definition ret {A} (a : A) : M A := (Return a, []).
Definition raise {A} (e : Exception) : M A := (Raise e, []).

(** A step inside the process that returns or raises. *)
Definition lift {A} (r : result A) : M A := (r, []).

Definition bind {A B} (m : M A) (k : A -> M B) : M B :=
  match m with
  | (Return a, t) => let (r, t') := k a in (r, t ++ t')
  | (Raise e, t) => (Raise e, t)
  end.

(** [try: m except Exception as e: h e] *)
Definition try_except {A} (m : M A) (h : Exception -> M A) : M A :=
  match m with
  | (Return a, t) => (Return a, t)
  | (Raise e, t) => let (r, t') := h e in (r, t ++ t')
  end.

(** An external call: the event, then what the collaborator answers. *)
Definition call {A} (ev : Event) (answer : result A) : M A := (answer, [ev]).

(** [for x in xs: acc = body acc x] *)
Fixpoint for_each {A B} (xs : list A) (acc : B) (body : B -> A -> M B) : M B :=
  match xs with
  | [] => ret acc
  | x :: xs' => bind (body acc x) (fun acc' => for_each xs' acc' body)
  end.

Definition outcome {A} (m : M A) : result A := fst m.
Definition trace {A} (m : M A) : list Event := snd m.

End Py.

Import Py.

Declare Scope py_scope.
Delimit Scope py_scope with py.
Notation "x <- m ;; k" := (bind m (fun x => k))
  (at level 61, m at next level, right associativity) : py_scope.
Open Scope py_scope.

(** ** [pathlib.Path], POSIX flavour *)

Module Pathlib.

Definition slash : char := 47%N.

(** [posixpath.splitroot] without the drive, always empty: the root and the
    rest.  Exactly two leading slashes are kept as the root. *)
Definition splitroot (p : str) : str * str :=
  if negb (Str.eqb (firstn 1 p) [slash]) then ([], p)
  else if negb (Str.eqb (firstn 1 (skipn 1 p)) [slash])
          || Str.eqb (firstn 1 (skipn 2 p)) [slash]
       then ([slash], skipn 1 p)
       else (firstn 2 p, skipn 2 p).

(** The components after the root: empty ones and [.] are dropped. *)
Definition tail_of (p : str) : list str :=
  filter (fun x => truthy x && negb (Str.eqb x (lit ".")))
         (split_char slash (snd (splitroot p))).

(** [Path(p).parts] *)
Definition parts (p : str) : list str :=
  if truthy (fst (splitroot p)) then fst (splitroot p) :: tail_of p
  else tail_of p.

(** [Path(p).name] *)
Definition name (p : str) : str := last (tail_of p) [].

End Pathlib.

(** ** [collections.Counter] over strings *)

Module Collections.

(** A dict from elements to counts, in insertion order. *)
Definition Counter := list (str * nat).

(** [self[elem] = self.get(elem, 0) + 1] *)
Fixpoint incr (c : Counter) (elem : str) : Counter :=
  match c with
  | [] => [(elem, 1)]
  | (k, n) :: c' =>
      if Str.eqb k elem then (k, S n) :: c' else (k, n) :: incr c' elem
  end.

(** [Counter(iterable)] *)
Definition count_elements (xs : list str) : Counter := fold_left incr xs [].

(** [max(it, key=itemgetter(1))] from a first candidate: an item replaces
    the candidate only when its count is strictly greater. *)
Fixpoint max_item (best : str * nat) (items : list (str * nat)) : str * nat :=
  match items with
  | [] => best
  | x :: items' => max_item (if snd best <? snd x then x else best) items'
  end.

(** [most_common(1)]: [heapq.nlargest(1, ...)] is the maximum, or nothing
    for an empty counter. *)
Definition most_common_1 (c : Counter) : list (str * nat) :=
  match c with
  | [] => []
  | x :: items => [max_item x items]
  end.

End Collections.

(** ** The collaborators: GitPython and google.generativeai *)

Module Git.

(** [git.Diff]; only [a_path] is read. *)
Record Diff := { a_path : option str }.

Record Repo := {
  (** [repo.index.diff(other)] *)
  index_diff : option str -> result (list Diff);
  (** [repo.git.diff(arg, ...)] *)
  git_diff : list str -> result str
}.

End Git.

Module Genai.

Record Response := { text : result str }.

Record GenerativeModel := {
  generate_content : str -> GenerationConfig -> result Response
}.

Record Model := { name : str }.

(** The module [genai] as the constructor sees it. *)
Record Backend := {
  new_model : str -> result GenerativeModel;
  list_models : result (list Model)
}.

End Genai.

(** ** [DiffAnalyzer] *)

Module Analyzer.

Definition LF : str := [10%N].
Definition blank_line : str := [10%N; 10%N].

(** A [Dict[str, str]] in insertion order. *)
Definition dict := list (str * str).

(** [d[k] = v] *)
Fixpoint dict_set (d : dict) (k v : str) : dict :=
  match d with
  | [] => [(k, v)]
  | (k', v') :: d' =>
      if Str.eqb k' k then (k', v) :: d' else (k', v') :: dict_set d' k v
  end.

Fixpoint dict_get (d : dict) (k : str) : option str :=
  match d with
  | [] => None
  | (k', v') :: d' => if Str.eqb k' k then Some v' else dict_get d' k
  end.

Definition keys (d : dict) : list str := map fst d.

Record DiffAnalyzer := {
  repo : Git.Repo;
  model : Genai.GenerativeModel
}.

Definition default_repo_path : str := lit ".".
Definition default_model_name : str := lit "gemini-2.0-flash".
Definition default_max_tokens : Z := 300.

Definition __init__ (git_Repo : str -> result Git.Repo) (genai : Genai.Backend)
    (repo_path : str) (api_key : option str) (model_name : str)
    : M DiffAnalyzer :=
  repo <- call (EvRepo repo_path) (git_Repo repo_path) ;;
  _ <- match api_key with
       | Some k => if truthy k then call (EvConfigure k) (Return tt) else ret tt
       | None => ret tt
       end ;;
  model <- try_except
    (call (EvGenerativeModel model_name) (Genai.new_model genai model_name))
    (fun e =>
       models <- call EvListModels (Genai.list_models genai) ;;
       let available_models := map Genai.name models in
       raise (ValueError (lit "Invalid model name: " ++ model_name
                          ++ lit ". Available models: "
                          ++ join (lit ", ") available_models))) ;;
  ret {| repo := repo; model := model |}.

Definition misc : str := lit "misc".

Definition _determine_scope (changed_files : list str) : result str :=
  match changed_files with
  | [] => Return misc
  | _ :: _ =>
      let dirs := map (fun f => if 1 <? length (Pathlib.parts f)
                                then hd [] (Pathlib.parts f) else misc)
                      changed_files in
      let counts := Collections.count_elements dirs in
      match Collections.most_common_1 counts with
      | [] => Raise (IndexError (lit "list index out of range"))
      | top :: _ => Return (fst top)
      end
  end.

Definition plus : str := lit "+".
Definition minus : str := lit "-".

Definition _prepare_diff_summary (staged_changes : dict) : str :=
  let summary_parts :=
    fold_left
      (fun summary_parts (item : str * str) =>
         let (file_path, diff) := item in
         let filename := Pathlib.name file_path in
         let lines := split_char 10%N diff in
         let added := length (filter (startswith plus) lines) in
         let removed := length (filter (startswith minus) lines) in
         let summary := lit "File: " ++ filename in
         let summary :=
           if negb (added =? 0) || negb (removed =? 0)
           then summary ++ lit " (" ++ of_nat added ++ lit " added, "
                        ++ of_nat removed ++ lit " removed)"
           else summary in
         let change_lines :=
           firstn 3 (filter (fun l => startswith plus l || startswith minus l)
                            lines) in
         let summary :=
           match change_lines with
           | [] => summary
           | _ :: _ => summary ++ LF ++ lit "Changes:" ++ LF
                               ++ join LF change_lines
           end in
         summary_parts ++ [summary])
      staged_changes [] in
  join blank_line summary_parts.

(** The body of the loop of [get_staged_changes]. *)
Definition get_staged_changes_body (self : DiffAnalyzer) (staged_files : dict)
    (diff_item : Git.Diff) : M dict :=
  match Git.a_path diff_item with
  | Some p =>
      if truthy p then
        d <- call (EvGitDiff [lit "--cached"; p])
                  (Git.git_diff (repo self) [lit "--cached"; p]) ;;
        ret (dict_set staged_files p d)
      else ret staged_files
  | None => ret staged_files
  end.

Definition get_staged_changes (self : DiffAnalyzer) : M dict :=
  diff <- call (EvIndexDiff (Some (lit "HEAD")))
               (Git.index_diff (repo self) (Some (lit "HEAD"))) ;;
  more <- call (EvIndexDiff None) (Git.index_diff (repo self) None) ;;
  let diff := diff ++ more in
  for_each diff ([] : dict) (get_staged_changes_body self).

Definition prompt_head : str := lit "Analyze these changes and generate a detailed git commit message:
".

Definition prompt_tail : str := lit "

Requirements for the commit message:
1. Start with a clear, concise title line (50-72 chars) that summarizes WHAT changed
2. Leave one blank line after the title
3. Follow with 2-4 paragraphs explaining:
   - WHY these changes were needed
   - HOW the changes address the need
   - Any important technical details or trade-offs
4. Use present tense and imperative mood
5. If relevant, include at end of body:
   - Breaking changes
   - Related issues
   - Migration notes
   - Credit to contributors

Example format:
Title summarizing the change

Explain why this change was needed and what problem it solves.
Provide context about the approach taken and any important
implementation details that future maintainers should know.

Include any breaking changes, migration notes, or related
issues at the end as trailers.

Generate a commit message following ALL the above rules.".

Definition build_prompt (changes_text : str) : str :=
  prompt_head ++ changes_text ++ prompt_tail.

Definition generation_config (max_tokens : Z) : GenerationConfig :=
  {| max_output_tokens := max_tokens;
     temperature := 0.7%float;
     top_p := 0.8%float;
     top_k := 40 |}.

(** Lines 148-159: from [response.text] to the returned message. *)
Definition format_response (response_text : str) : result str :=
  let message := strip response_text in
  let parts := split1 blank_line message in
  if length parts =? 1 then
    match parts with
    | p :: _ => Return p
    | [] => Raise (IndexError (lit "list index out of range"))
    end
  else
    match parts with
    | [title; body] => Return (strip title ++ blank_line ++ strip body)
    | _ => Raise (ValueError (lit "not enough values to unpack"))
    end.

Definition no_staged_changes : str := lit "No staged changes found".
Definition error_prefix : str := lit "Error generating commit message: ".

Definition generate_commit_message (self : DiffAnalyzer) (max_tokens : Z)
    : M str :=
  staged_changes <- get_staged_changes self ;;
  match staged_changes with
  | [] => ret no_staged_changes
  | _ :: _ =>
      let changed_files := keys staged_changes in
      let changes_text := _prepare_diff_summary staged_changes in
      let prompt := build_prompt changes_text in
      try_except
        (response <- call (EvGenerateContent prompt (generation_config max_tokens))
                          (Genai.generate_content (model self) prompt
                             (generation_config max_tokens)) ;;
         response_text <- lift (Genai.text response) ;;
         lift (format_response response_text))
        (fun e => ret (error_prefix ++ exc_str e))
  end.

End Analyzer.

(** ** The vocabulary of the specification *)

Module Spec.

(** [sep] occurs in [s] at index [i]. *)
Definition occurs_at (sep s : str) (i : nat) : bool :=
  startswith sep (skipn i s).

(** [sep] occurs in [s] at some index below [n]. *)
Definition occurs_before (sep s : str) (n : nat) : bool :=
  existsb (occurs_at sep s) (seq 0 n).

(** The first occurrence of [sep] in [s] is at index [i]. *)
Definition first_occurrence (sep s : str) (i : nat) : bool :=
  occurs_at sep s i && negb (occurs_before sep s i).

(** [sep] occurs nowhere in [s]. *)
Definition no_occurrence (sep s : str) : bool :=
  negb (occurs_before sep s (S (length s))).

(** Some character of [s] is not whitespace. *)
Definition has_nonspace (s : str) : bool :=
  existsb (fun c => negb (isspace c)) s.

(** CommitMessage: the title is the text up to the first blank-line
    separator, the body everything after it, absent without a separator. *)
Record CommitMessage := { title : str; body : option str }.

Definition commit_message (s : str) : CommitMessage :=
  match find (occurs_at Analyzer.blank_line s) (seq 0 (S (length s))) with
  | Some i => {| title := firstn i s; body := Some (skipn (i + 2) s) |}
  | None => {| title := s; body := None |}
  end.

(** DiffDigest: what the summarizer keeps of one file. *)
Record DiffDigest := {
  filename : str;
  addedLineCount : nat;
  removedLineCount : nat;
  sampleLines : list str
}.

Definition first_char_is (c : char) (l : str) : bool :=
  match l with x :: _ => (x =? c)%N | [] => false end.

Definition digest_of (path diff : str) : DiffDigest :=
  let lines := split_char 10%N diff in
  {| filename := Pathlib.name path;
     addedLineCount := length (filter (first_char_is 43%N) lines);
     removedLineCount := length (filter (first_char_is 45%N) lines);
     sampleLines :=
       firstn 3 (filter (fun l => first_char_is 43%N l || first_char_is 45%N l)
                        lines) |}.

(** The header, the counts when one of them is not zero, and the sample
    lines under their label when there are any. *)
Definition render (d : DiffDigest) : str :=
  lit "File: " ++ filename d
  ++ (if (addedLineCount d =? 0) && (removedLineCount d =? 0) then []
      else lit " (" ++ of_nat (addedLineCount d) ++ lit " added, "
                    ++ of_nat (removedLineCount d) ++ lit " removed)")
  ++ (match sampleLines d with
      | [] => []
      | ls => Analyzer.LF ++ lit "Changes:" ++ Analyzer.LF
                          ++ join Analyzer.LF ls
      end).

(** The block of one file in the digest. *)
Definition block (item : str * str) : str :=
  render (digest_of (fst item) (snd item)).

(** How often [d] occurs in [l], and where it occurs first. *)
Definition count (d : str) (l : list str) : nat :=
  count_occ Str.eq_dec l d.

Fixpoint index_of (d : str) (l : list str) : nat :=
  match l with
  | [] => 0
  | x :: l' => if Str.eqb x d then 0 else S (index_of d l')
  end.

(** The label a path contributes to the scope. *)
Definition scope_label (f : str) : str :=
  match Pathlib.parts f with
  | first :: _ :: _ => first
  | _ => Analyzer.misc
  end.

(** A path segment: not empty, not [.], without a slash. *)
Definition plain_segment (x : str) : bool :=
  truthy x && negb (Str.eqb x (lit ".")) && negb (existsb (N.eqb Pathlib.slash) x).

(** A string that does not begin, or does not end, with whitespace. *)
Definition starts_clean (s : str) : Prop :=
  match s with [] => True | c :: _ => isspace c = false end.

Definition ends_clean (s : str) : Prop := starts_clean (rev s).

(** An external call that is not a call of the generation backend. *)
Definition quiet (ev : Event) : Prop := is_generate ev = false.

(** [needle] is a contiguous part of [s]. *)
Definition contains (s needle : str) : Prop :=
  exists a b, s = a ++ needle ++ b.

(** The elements of [l] without repetition, in the order of their first
    occurrence. *)
Fixpoint dedup (l : list str) : list str :=
  match l with
  | [] => []
  | x :: l' => x :: filter (fun y => negb (Str.eqb y x)) (dedup l')
  end.

(** The non-empty source paths of diff entries. *)
Fixpoint source_paths (entries : list Git.Diff) : list str :=
  match entries with
  | [] => []
  | e :: es =>
      match Git.a_path e with
      | Some p => if truthy p then p :: source_paths es else source_paths es
      | None => source_paths es
      end
  end.

End Spec.

Import Analyzer.

(** ** Concrete inputs *)

Module Examples.

Definition title_and_paragraphs : str := lit "Title line

Body para one.

Body para two.".

Definition two_paragraphs : str := lit "Body para one.

Body para two.".

Definition padded_response : str := lit "  Fix bug 


 Details here.
".

Definition five_lines : list str :=
  [lit "+a"; lit "+b"; lit "-c"; lit "+d"; lit "-e"].

Definition five_line_diff : str := lit "+a
+b
-c
+d
-e".

Definition answer (s : str) : Genai.GenerativeModel :=
  {| Genai.generate_content := fun _ _ => Return {| Genai.text := Return s |} |}.

Definition unreachable : Exception :=
  {| exc_class := lit "ServiceUnavailable"; exc_str := lit "503 backend unreachable" |}.

Definition failing : Genai.GenerativeModel :=
  {| Genai.generate_content := fun _ _ => Raise unreachable |}.

(** A repository whose index differs from HEAD in the given entries; the
    cached diff of every path is [five_line_diff]. *)
Definition repo_with (entries : list Git.Diff) : Git.Repo :=
  {| Git.index_diff := fun other =>
       match other with Some _ => Return entries | None => Return [] end;
     Git.git_diff := fun _ => Return five_line_diff |}.

Definition analyzer (entries : list Git.Diff) (m : Genai.GenerativeModel)
    : DiffAnalyzer :=
  {| repo := repo_with entries; model := m |}.

Definition entry (p : str) : Git.Diff := {| Git.a_path := Some p |}.

Definition pathless : Git.Diff := {| Git.a_path := None |}.

Definition not_found : Exception :=
  {| exc_class := lit "NotFound"; exc_str := lit "404 model not found" |}.

(** A backend that knows the models [names] and rejects every other
    name. *)
Definition backend (names : list str) : Genai.Backend :=
  {| Genai.new_model := fun n =>
       if existsb (Str.eqb n) names then Return (answer []) else Raise not_found;
     Genai.list_models := Return (map (fun n => {| Genai.name := n |}) names) |}.

Definition open_repo (p : str) : result Git.Repo := Return (repo_with []).

End Examples.

(** ** Measures and further inputs *)

Module Cases.

(** The number of line breaks in a string. *)
Definition newlines (s : str) : nat := count_occ N.eq_dec s 10%N.

(** A string without line break. *)
Definition one_line (l : str) : bool := negb (existsb (N.eqb 10%N) l).

(** A line of a diff that starts with [+] or [-]. *)
Definition changed (l : str) : bool :=
  Spec.first_char_is 43%N l || Spec.first_char_is 45%N l.

(** The absolute path made of the given segments. *)
Definition rooted (segs : list str) : str :=
  Pathlib.slash :: join [Pathlib.slash] segs.

(** The call [repo.git.diff("--cached", p)]. *)
Definition cached_diff_call (p : str) : Event := EvGitDiff [lit "--cached"; p].

(** The call [genai.configure(api_key=k)], made when [k] is given and not
    empty. *)
Definition configure_calls (api_key : option str) : list Event :=
  match api_key with
  | Some k => if truthy k then [EvConfigure k] else []
  | None => []
  end.

Definition invalid_repository : Exception :=
  {| exc_class := lit "InvalidGitRepositoryError"; exc_str := lit "/tmp/nowhere" |}.

Definition no_repo (p : str) : result Git.Repo := Raise invalid_repository.

(** A backend that rejects every name and whose listing cannot be read. *)
Definition offline_backend : Genai.Backend :=
  {| Genai.new_model := fun _ => Raise Examples.not_found;
     Genai.list_models := Raise Examples.unreachable |}.

Definition bad_revision : Exception :=
  {| exc_class := lit "BadName"; exc_str := lit "Ref 'HEAD' did not resolve to an object" |}.

(** A repository in which HEAD cannot be resolved. *)
Definition repo_without_head : Git.Repo :=
  {| Git.index_diff := fun other =>
       match other with Some _ => Raise bad_revision | None => Return [] end;
     Git.git_diff := fun _ => Return [] |}.

Definition command_error : Exception :=
  {| exc_class := lit "GitCommandError"; exc_str := lit "git diff failed" |}.

(** A repository whose cached diff cannot be read for the path [bad]. *)
Definition repo_unreadable (bad : str) (entries : list Git.Diff) : Git.Repo :=
  {| Git.index_diff := fun other =>
       match other with Some _ => Return entries | None => Return [] end;
     Git.git_diff := fun args =>
       if Str.eqb (last args []) bad then Raise command_error
       else Return Examples.five_line_diff |}.

Definition blocked_answer : Exception :=
  {| exc_class := lit "ValueError"; exc_str := lit "response has no valid part" |}.

(** A model whose answer has no text to read. *)
Definition blocked : Genai.GenerativeModel :=
  {| Genai.generate_content := fun _ _ =>
       Return {| Genai.text := Raise blocked_answer |} |}.

(** A repository whose index equals HEAD and differs from the working tree
    in the given entries: nothing is staged, every cached diff is empty. *)
Definition repo_unstaged (entries : list Git.Diff) : Git.Repo :=
  {| Git.index_diff := fun other =>
       match other with Some _ => Return [] | None => Return entries end;
     Git.git_diff := fun _ => Return [] |}.

(** The block of a file without changed line. *)
Definition bare_header (p : str) : str := lit "File: " ++ Pathlib.name p.

(** Segments that make a path: at least one, all plain. *)
Definition plain_path (segs : list str) : bool :=
  match segs with
  | [] => false
  | _ :: _ => forallb Spec.plain_segment segs
  end.

(** The lines of a unified diff as git prints it. *)
Definition unified_diff : list str :=
  [lit "diff --git a/src/a.py b/src/a.py";
   lit "index 1111111..2222222 100644";
   lit "--- a/src/a.py";
   lit "+++ b/src/a.py";
   lit "@@ -1,2 +1,2 @@";
   lit " import os";
   lit "-x = 1";
   lit "+x = 2"].

(** The segments of a path: its components between slashes, without the
    empty ones and without [.]. *)
Definition segments (p : str) : list str :=
  filter (fun x => truthy x && negb (Str.eqb x (lit ".")))
         (split_char Pathlib.slash p).

(** The label a path contributes in the words of the specification: its
    first segment when it has more than one, the fallback otherwise. *)
Definition claimed_label (p : str) : str :=
  match segments p with
  | first :: _ :: _ => first
  | _ => Analyzer.misc
  end.

(** The number of slashes a path begins with, and the root they make: none
    for a relative path, [//] for exactly two slashes, [/] otherwise. *)
Fixpoint leading_slashes (p : str) : nat :=
  match p with
  | c :: r => if (c =? Pathlib.slash)%N then S (leading_slashes r) else 0
  | [] => 0
  end.

Definition path_root (p : str) : str :=
  match leading_slashes p with
  | 0 => []
  | 2 => [Pathlib.slash; Pathlib.slash]
  | _ => [Pathlib.slash]
  end.

(** The label a path contributes: for a relative path the label of the
    specification; for an absolute path its root when it has a segment,
    the fallback when it has none. *)
Definition path_label (p : str) : str :=
  match path_root p with
  | [] => claimed_label p
  | _ :: _ =>
      match segments p with
      | [] => Analyzer.misc
      | _ :: _ => path_root p
      end
  end.

(** [trims s t]: [t] is [s] with some whitespace characters taken away and
    nothing else changed. *)
Inductive trims : str -> str -> Prop :=
| trims_nil : trims [] []
| trims_keep (c : char) (s t : str) : trims s t -> trims (c :: s) (c :: t)
| trims_drop (c : char) (s t : str) :
    isspace c = true -> trims s t -> trims (c :: s) t.

(** A backend like google.generativeai: the constructor of a model takes
    any name, listed or not. *)
Definition permissive_backend (names : list str) : Genai.Backend :=
  {| Genai.new_model := fun _ => Return (Examples.answer []);
     Genai.list_models := Return (map (fun n => {| Genai.name := n |}) names) |}.

End Cases.

(** * Properties *)

(** ** The error and trace monad *)

Section Monad.

Context {A B : Type}.

Lemma outcome_bind_return (m : M A) (k : A -> M B) a :
  outcome m = Return a -> outcome (bind m k) = outcome (k a).
Proof.
  destruct m as [r t]; simpl; intros ->; simpl.
  destruct (k a); reflexivity.
Qed.

Lemma outcome_bind_raise (m : M A) (k : A -> M B) e :
  outcome m = Raise e -> outcome (bind m k) = Raise e.
Proof. destruct m as [r t]; simpl; intros ->; reflexivity. Qed.

Lemma trace_bind_return (m : M A) (k : A -> M B) a :
  outcome m = Return a -> trace (bind m k) = trace m ++ trace (k a).
Proof.
  destruct m as [r t]; simpl; intros ->; simpl.
  destruct (k a); reflexivity.
Qed.

Lemma trace_bind_raise (m : M A) (k : A -> M B) e :
  outcome m = Raise e -> trace (bind m k) = trace m.
Proof. destruct m as [r t]; simpl; intros ->; reflexivity. Qed.

End Monad.

Lemma bind_ret_l {A B} (a : A) (k : A -> M B) : bind (ret a) k = k a.
Proof. unfold bind, ret. destruct (k a); reflexivity. Qed.

Lemma quiet_bind {A B} (m : M A) (k : A -> M B) :
  Forall Spec.quiet (trace m) -> (forall a, Forall Spec.quiet (trace (k a))) ->
  Forall Spec.quiet (trace (bind m k)).
Proof.
  destruct m as [[a|e] t]; simpl; intros Hm Hk; [|exact Hm].
  specialize (Hk a). destruct (k a) as [r t']; simpl in *.
  apply Forall_app; split; assumption.
Qed.

Lemma quiet_filter (t : list Event) :
  Forall Spec.quiet t -> filter is_generate t = [].
Proof.
  induction 1 as [|ev t Hev _ IH]; simpl; [reflexivity|].
  unfold Spec.quiet in Hev. rewrite Hev. exact IH.
Qed.

(** ** Strings *)

Lemma eqb_true_iff (a b : str) : Str.eqb a b = true <-> a = b.
Proof.
  unfold Str.eqb. destruct (Str.eq_dec a b); split; congruence.
Qed.

Lemma eqb_false_iff (a b : str) : Str.eqb a b = false <-> a <> b.
Proof.
  unfold Str.eqb. destruct (Str.eq_dec a b); split; congruence.
Qed.

Lemma eqb_refl (a : str) : Str.eqb a a = true.
Proof. apply eqb_true_iff; reflexivity. Qed.

Lemma eqb_sym (a b : str) : Str.eqb a b = Str.eqb b a.
Proof.
  destruct (Str.eqb b a) eqn:E.
  - apply eqb_true_iff in E. subst. apply eqb_refl.
  - apply eqb_false_iff in E. apply eqb_false_iff. congruence.
Qed.

(** ** Insertion-ordered dictionaries and first-occurrence order *)

Lemma dedup_In (x : str) l : In x (Spec.dedup l) <-> In x l.
Proof.
  induction l as [|a l IH]; simpl; [tauto|].
  rewrite filter_In, IH.
  destruct (Str.eqb x a) eqn:E.
  - apply eqb_true_iff in E. subst. split; auto.
  - apply eqb_false_iff in E. simpl. split.
    + intros [H|[H _]]; auto.
    + intros [H|H]; [congruence|auto].
Qed.

Lemma dedup_snoc (x : str) l :
  Spec.dedup (l ++ [x]) =
  if in_dec Str.eq_dec x l then Spec.dedup l else Spec.dedup l ++ [x].
Proof.
  induction l as [|a l IH]; simpl.
  - destruct (in_dec Str.eq_dec x []) as [[]|_]. reflexivity.
  - rewrite IH. destruct (Str.eq_dec a x) as [->|Hne].
    + destruct (in_dec Str.eq_dec x l) as [Hin|Hnin]; destruct (in_dec Str.eq_dec x (x :: l)) as [_|Hn];
        try (exfalso; apply Hn; left; reflexivity); try reflexivity.
      rewrite filter_app. simpl. rewrite eqb_refl. simpl.
      rewrite app_nil_r. reflexivity.
    + destruct (in_dec Str.eq_dec x l) as [Hin|Hnin]; destruct (in_dec Str.eq_dec x (a :: l)) as [Hi|Hn].
      * reflexivity.
      * exfalso. apply Hn. right. exact Hin.
      * exfalso. destruct Hi as [Hi|Hi]; [congruence|contradiction].
      * rewrite filter_app. simpl.
        assert (E : Str.eqb x a = false) by (apply eqb_false_iff; congruence).
        rewrite E. reflexivity.
Qed.

Lemma keys_dict_set (d : dict) k v :
  keys (dict_set d k v) =
  if in_dec Str.eq_dec k (keys d) then keys d else keys d ++ [k].
Proof.
  unfold keys. induction d as [|[k' v'] d IH]; simpl.
  - reflexivity.
  - destruct (Str.eqb k' k) eqn:E.
    + apply eqb_true_iff in E. subst k'. simpl.
      destruct (Str.eq_dec k k); [reflexivity|congruence].
    + apply eqb_false_iff in E. simpl. rewrite IH.
      destruct (Str.eq_dec k' k); [congruence|].
      destruct (in_dec Str.eq_dec k (map fst d)); reflexivity.
Qed.

Lemma dict_get_set (d : dict) k v k0 :
  dict_get (dict_set d k v) k0 = if Str.eqb k k0 then Some v else dict_get d k0.
Proof.
  induction d as [|[k' v'] d IH]; simpl.
  - reflexivity.
  - destruct (Str.eqb k' k) eqn:E; simpl.
    + apply eqb_true_iff in E. subst k'. destruct (Str.eqb k k0); reflexivity.
    + rewrite IH. destruct (Str.eqb k' k0) eqn:E0; [|reflexivity].
      apply eqb_true_iff in E0. subst k0. rewrite eqb_sym, E. reflexivity.
Qed.

(** ** The diff collector *)

Section Collector.

Variable self : DiffAnalyzer.

Local Abbreviation cached p := (Git.git_diff (repo self) [lit "--cached"; p]).

Lemma body_quiet staged_files diff_item :
  Forall Spec.quiet (trace (get_staged_changes_body self staged_files diff_item)).
Proof.
  unfold get_staged_changes_body.
  destruct (Git.a_path diff_item) as [p|]; [|constructor].
  destruct (truthy p); [|constructor].
  apply quiet_bind.
  - repeat constructor.
  - intros; constructor.
Qed.

Lemma loop_quiet entries : forall acc,
  Forall Spec.quiet (trace (for_each entries acc (get_staged_changes_body self))).
Proof.
  induction entries as [|e es IH]; intros acc; simpl.
  - constructor.
  - apply quiet_bind; [apply body_quiet | intros; apply IH].
Qed.

Lemma get_staged_changes_quiet :
  Forall Spec.quiet (trace (get_staged_changes self)).
Proof.
  unfold get_staged_changes.
  apply quiet_bind; [repeat constructor|]. intros a.
  apply quiet_bind; [repeat constructor|]. intros b.
  apply loop_quiet.
Qed.

(** The loop, started on a dictionary that holds the paths [seen], ends on
    the dictionary of [seen] and the source paths of [entries], as long as
    the cached diff of each of those paths can be read. *)
Lemma loop_returns entries : forall acc seen,
  keys acc = Spec.dedup seen ->
  (forall k v, dict_get acc k = Some v <-> In k seen /\ cached k = Return v) ->
  (forall p, In p (Spec.source_paths entries) -> exists d, cached p = Return d) ->
  exists m,
    outcome (for_each entries acc (get_staged_changes_body self)) = Return m
    /\ keys m = Spec.dedup (seen ++ Spec.source_paths entries)
    /\ (forall k v, dict_get m k = Some v <->
                    In k (seen ++ Spec.source_paths entries) /\ cached k = Return v).
Proof.
  induction entries as [|e es IH]; intros acc seen Hk Hv Hc; simpl.
  - exists acc. rewrite app_nil_r. auto.
  - unfold get_staged_changes_body at 1. simpl in Hc.
    destruct (Git.a_path e) as [p|]; [destruct (truthy p)|].
    + destruct (Hc p (or_introl eq_refl)) as [d Hd].
      rewrite Hd. unfold call, ret, bind at 2. simpl app.
      destruct (IH (dict_set acc p d) (seen ++ [p])) as (m & Hm & Hkm & Hvm).
      * rewrite keys_dict_set, dedup_snoc, Hk.
        destruct (in_dec Str.eq_dec p (Spec.dedup seen)) as [Hi|Hn];
          destruct (in_dec Str.eq_dec p seen) as [Hi'|Hn']; try reflexivity.
        -- exfalso. apply Hn'. apply dedup_In. exact Hi.
        -- exfalso. apply Hn. apply dedup_In. exact Hi'.
      * intros k v. rewrite dict_get_set, in_app_iff.
        destruct (Str.eqb p k) eqn:E.
        -- apply eqb_true_iff in E. subst k. rewrite Hd. simpl. split.
           ++ intros [= <-]. auto.
           ++ intros [_ [= <-]]. reflexivity.
        -- apply eqb_false_iff in E. rewrite Hv. simpl. split.
           ++ intros [? ?]; auto.
           ++ intros [[?|[?|[]]] ?]; [auto|congruence].
      * intros q Hq. apply Hc. right. exact Hq.
      * exists m. rewrite <- app_assoc in Hkm, Hvm. simpl in Hkm, Hvm.
        split; [|split; assumption].
        rewrite (outcome_bind_return _ _ (dict_set acc p d)); [exact Hm|reflexivity].
    + rewrite bind_ret_l. apply (IH acc seen Hk Hv Hc).
    + rewrite bind_ret_l. apply (IH acc seen Hk Hv Hc).
Qed.

End Collector.

(** ** Stripping whitespace *)

Lemma lstrip_starts_clean s : Spec.starts_clean (lstrip s).
Proof.
  induction s as [|c s IH]; simpl; [exact I|].
  destruct (isspace c) eqn:E; [exact IH|]. simpl. exact E.
Qed.

Lemma lstrip_clean s : Spec.starts_clean s -> lstrip s = s.
Proof. destruct s as [|c s]; simpl; [reflexivity|]. intros ->. reflexivity. Qed.

Lemma lstrip_snoc s c : isspace c = false -> lstrip (s ++ [c]) = lstrip s ++ [c].
Proof.
  intros Hc. induction s as [|x s IH]; simpl.
  - rewrite Hc. reflexivity.
  - destruct (isspace x); [exact IH|reflexivity].
Qed.

Lemma rstrip_ends_clean s : Spec.ends_clean (rstrip s).
Proof.
  unfold Spec.ends_clean, rstrip. rewrite rev_involutive.
  apply lstrip_starts_clean.
Qed.

Lemma rstrip_clean s : Spec.ends_clean s -> rstrip s = s.
Proof.
  unfold Spec.ends_clean, rstrip. intros H.
  rewrite (lstrip_clean _ H). apply rev_involutive.
Qed.

Lemma rstrip_cons c s : isspace c = false -> rstrip (c :: s) = c :: rstrip s.
Proof.
  intros Hc. unfold rstrip. simpl.
  rewrite (lstrip_snoc _ _ Hc), rev_app_distr. reflexivity.
Qed.

Lemma rstrip_starts_clean s : Spec.starts_clean s -> Spec.starts_clean (rstrip s).
Proof.
  destruct s as [|c s]; simpl; [intros _; exact I|].
  intros Hc. rewrite (rstrip_cons _ _ Hc). exact Hc.
Qed.

Lemma strip_starts_clean s : Spec.starts_clean (strip s).
Proof. apply rstrip_starts_clean, lstrip_starts_clean. Qed.

Lemma strip_ends_clean s : Spec.ends_clean (strip s).
Proof. apply rstrip_ends_clean. Qed.

Lemma strip_clean s : Spec.starts_clean s -> Spec.ends_clean s -> strip s = s.
Proof.
  intros Hs He. unfold strip. rewrite (lstrip_clean _ Hs). apply rstrip_clean, He.
Qed.

Lemma strip_idempotent s : strip (strip s) = strip s.
Proof. apply strip_clean; [apply strip_starts_clean | apply strip_ends_clean]. Qed.

Lemma lstrip_keeps_nonspace s :
  Spec.has_nonspace (lstrip s) = Spec.has_nonspace s.
Proof.
  induction s as [|c s IH]; simpl; [reflexivity|].
  destruct (isspace c) eqn:E; simpl; [exact IH|]. rewrite E. reflexivity.
Qed.

Lemma has_nonspace_rev s : Spec.has_nonspace (rev s) = Spec.has_nonspace s.
Proof.
  unfold Spec.has_nonspace. induction s as [|c s IH]; simpl; [reflexivity|].
  rewrite existsb_app, IH. simpl. rewrite orb_false_r. apply orb_comm.
Qed.

Lemma strip_keeps_nonspace s : Spec.has_nonspace (strip s) = Spec.has_nonspace s.
Proof.
  unfold strip, rstrip.
  rewrite has_nonspace_rev, lstrip_keeps_nonspace, has_nonspace_rev.
  apply lstrip_keeps_nonspace.
Qed.

Lemma nonspace_nonempty s : Spec.has_nonspace s = true -> s <> [].
Proof. destruct s; [discriminate|discriminate]. Qed.

Lemma starts_clean_nonspace c s :
  Spec.starts_clean (c :: s) -> Spec.has_nonspace (c :: s) = true.
Proof. simpl. intros ->. reflexivity. Qed.

Lemma ends_clean_nonspace s :
  s <> [] -> Spec.ends_clean s -> Spec.has_nonspace s = true.
Proof.
  intros Hne He. rewrite <- has_nonspace_rev. unfold Spec.ends_clean in He.
  destruct (rev s) as [|c r] eqn:E.
  - apply (f_equal (@rev _)) in E. rewrite rev_involutive in E. contradiction.
  - apply starts_clean_nonspace, He.
Qed.

Lemma strip_nonempty s : Spec.has_nonspace s = true -> strip s <> [].
Proof.
  intros H. apply nonspace_nonempty. rewrite strip_keeps_nonspace. exact H.
Qed.

Lemma starts_clean_app s t : s <> [] -> Spec.starts_clean s -> Spec.starts_clean (s ++ t).
Proof. destruct s; [contradiction|]. simpl. auto. Qed.

Lemma ends_clean_app s t : t <> [] -> Spec.ends_clean t -> Spec.ends_clean (s ++ t).
Proof.
  unfold Spec.ends_clean. intros Hne He. rewrite rev_app_distr.
  apply starts_clean_app; [|exact He].
  intros E. apply (f_equal (@rev _)) in E. rewrite rev_involutive in E. contradiction.
Qed.

(** ** Splitting at the first separator *)

Lemma startswith_app sep b : startswith sep (sep ++ b) = true.
Proof.
  induction sep as [|c sep IH]; simpl; [reflexivity|].
  rewrite N.eqb_refl. exact IH.
Qed.

Lemma startswith_true sep : forall s,
  startswith sep s = true -> s = sep ++ skipn (length sep) s.
Proof.
  induction sep as [|c sep IH]; intros s; simpl; [reflexivity|].
  destruct s as [|x s]; [discriminate|].
  intros H. apply andb_prop in H. destruct H as [Hc Hs].
  apply N.eqb_eq in Hc. subst x. f_equal. apply IH, Hs.
Qed.

Lemma partition_first_eq sep s :
  partition_first sep s =
  if startswith sep s then Some ([], skipn (length sep) s)
  else match s with
       | [] => None
       | c :: s' =>
           match partition_first sep s' with
           | Some (a, b) => Some (c :: a, b)
           | None => None
           end
       end.
Proof. destruct s; reflexivity. Qed.

Lemma partition_first_some sep : forall s t b,
  partition_first sep s = Some (t, b) ->
  s = t ++ sep ++ b /\ forall j, j < length t -> Spec.occurs_at sep s j = false.
Proof.
  induction s as [|c s IH]; intros t b; rewrite partition_first_eq.
  - destruct (startswith sep []) eqn:E; [|discriminate].
    intros [= <- <-]. split; [|simpl; lia].
    apply (startswith_true _ _ E).
  - destruct (startswith sep (c :: s)) eqn:E.
    + intros [= <- <-]. split; [|simpl; lia].
      apply (startswith_true _ _ E).
    + destruct (partition_first sep s) as [[a b']|] eqn:P; [|discriminate].
      intros [= <- <-]. destruct (IH a b' eq_refl) as [Hs Hj].
      split; [simpl; f_equal; exact Hs|].
      intros [|j] Hlt; [exact E|]. apply Hj. simpl in Hlt. lia.
Qed.

Lemma partition_first_none sep : forall s,
  partition_first sep s = None -> forall j, Spec.occurs_at sep s j = false.
Proof.
  induction s as [|c s IH]; rewrite partition_first_eq.
  - destruct (startswith sep []) eqn:E; [discriminate|].
    intros _ [|j]; exact E.
  - destruct (startswith sep (c :: s)) eqn:E; [discriminate|].
    destruct (partition_first sep s) as [[a b']|] eqn:P; [discriminate|].
    intros _ [|j]; [exact E|]. apply (IH eq_refl).
Qed.

Lemma partition_first_app sep B : forall T,
  (forall j, j < length T -> Spec.occurs_at sep (T ++ sep ++ B) j = false) ->
  partition_first sep (T ++ sep ++ B) = Some (T, B).
Proof.
  induction T as [|c T IH]; intros H; rewrite partition_first_eq.
  - simpl. rewrite startswith_app, skipn_app, skipn_all, Nat.sub_diag. reflexivity.
  - assert (E : startswith sep ((c :: T) ++ sep ++ B) = false)
      by (apply (H 0); simpl; lia).
    rewrite E. simpl. rewrite IH; [reflexivity|].
    intros j Hj. apply (H (S j)). simpl. lia.
Qed.

Lemma occurs_before_false sep s n :
  Spec.occurs_before sep s n = false <->
  forall j, j < n -> Spec.occurs_at sep s j = false.
Proof.
  unfold Spec.occurs_before. split.
  - intros H j Hj. destruct (Spec.occurs_at sep s j) eqn:E; [|reflexivity].
    rewrite <- H. symmetry. apply existsb_exists. exists j. split; [|exact E].
    apply in_seq. lia.
  - intros H. destruct (existsb _ _) eqn:E; [|reflexivity].
    apply existsb_exists in E. destruct E as (j & Hin & Hj).
    apply in_seq in Hin. rewrite H in Hj; [discriminate|lia].
Qed.

(** The pieces [split1] produces, in the words of the specification. *)
Lemma split1_no_occurrence sep s :
  Spec.no_occurrence sep s = true -> split1 sep s = [s].
Proof.
  unfold Spec.no_occurrence, split1. intros H. apply negb_true_iff in H.
  destruct (partition_first sep s) as [[t b]|] eqn:P; [|reflexivity].
  destruct (partition_first_some _ _ _ _ P) as [Hs _].
  assert (Ht : Spec.occurs_at sep s (length t) = true).
  { unfold Spec.occurs_at. rewrite Hs at 1.
    rewrite skipn_app, skipn_all, Nat.sub_diag. simpl. apply startswith_app. }
  rewrite (proj1 (occurs_before_false sep s _) H) in Ht; [discriminate|].
  apply (f_equal (@length _)) in Hs. rewrite length_app in Hs. lia.
Qed.

Lemma split1_first_occurrence sep s i :
  Spec.first_occurrence sep s i = true ->
  split1 sep s = [firstn i s; skipn (i + length sep) s].
Proof.
  unfold Spec.first_occurrence, split1. intros H.
  apply andb_prop in H. destruct H as [Hi Hb]. apply negb_true_iff in Hb.
  destruct (partition_first sep s) as [[t b]|] eqn:P.
  - destruct (partition_first_some _ _ _ _ P) as [Hs Hj].
    assert (Ht : Spec.occurs_at sep s (length t) = true).
    { unfold Spec.occurs_at. rewrite Hs at 1.
      rewrite skipn_app, skipn_all, Nat.sub_diag. simpl. apply startswith_app. }
    assert (i = length t).
    { destruct (Nat.lt_trichotomy i (length t)) as [Hlt|[Heq|Hgt]]; [|exact Heq|].
      - rewrite (Hj _ Hlt) in Hi. discriminate.
      - rewrite (proj1 (occurs_before_false sep s i) Hb _ Hgt) in Ht. discriminate. }
    subst i. rewrite Hs at 1 2.
    rewrite firstn_app, firstn_all, Nat.sub_diag, skipn_app. simpl.
    rewrite app_nil_r. rewrite skipn_all2 by lia.
    replace (length t + length sep - length t) with (length sep) by lia.
    rewrite skipn_app, skipn_all, Nat.sub_diag. reflexivity.
  - rewrite (partition_first_none _ _ P) in Hi. discriminate.
Qed.

(** ** The message formatter *)

Lemma format_response_whole raw :
  partition_first blank_line (strip raw) = None ->
  format_response raw = Return (strip raw).
Proof. unfold format_response, split1. intros ->. reflexivity. Qed.

Lemma format_response_parts raw t b :
  partition_first blank_line (strip raw) = Some (t, b) ->
  format_response raw = Return (strip t ++ blank_line ++ strip b).
Proof. unfold format_response, split1. intros ->. reflexivity. Qed.

Lemma format_response_returns raw : exists out, format_response raw = Return out.
Proof.
  destruct (partition_first blank_line (strip raw)) as [[t b]|] eqn:P.
  - eexists. apply (format_response_parts _ _ _ P).
  - eexists. apply (format_response_whole _ P).
Qed.

Lemma occurs_at_blank_line s j :
  Spec.occurs_at blank_line s j = true <->
  nth_error s j = Some 10%N /\ nth_error s (S j) = Some 10%N.
Proof.
  unfold Spec.occurs_at, blank_line.
  rewrite <- (Nat.add_0_r j) at 2. rewrite <- (Nat.add_1_r j).
  rewrite <- !nth_error_skipn.
  destruct (skipn j s) as [|x [|y u]]; cbn [startswith nth_error].
  - split; [discriminate|intros [? _]; discriminate].
  - rewrite andb_false_r. split; [discriminate|intros [_ ?]; discriminate].
  - rewrite andb_true_r, andb_true_iff, !N.eqb_eq. split.
    + intros [<- <-]. auto.
    + intros [[= <-] [= <-]]. auto.
Qed.

Lemma lstrip_suffix s : exists a, s = a ++ lstrip s.
Proof.
  induction s as [|c s [a IH]]; simpl.
  - exists []. reflexivity.
  - destruct (isspace c).
    + exists (c :: a). simpl. f_equal. exact IH.
    + exists []. reflexivity.
Qed.

Lemma rstrip_prefix s : exists w, s = rstrip s ++ w.
Proof.
  destruct (lstrip_suffix (rev s)) as [a Ha]. exists (rev a). unfold rstrip.
  rewrite <- rev_app_distr, <- Ha. symmetry. apply rev_involutive.
Qed.

Lemma ends_clean_last T :
  Spec.ends_clean T -> nth_error T (pred (length T)) <> Some 10%N.
Proof.
  unfold Spec.ends_clean. intros H.
  destruct (rev T) as [|c r] eqn:E.
  - apply (f_equal (@rev _)) in E. rewrite rev_involutive in E. subst T. discriminate.
  - apply (f_equal (@rev _)) in E. rewrite rev_involutive in E. subst T. simpl in *.
    rewrite length_app, Nat.add_1_r. simpl.
    rewrite nth_error_app2, length_rev, Nat.sub_diag by (rewrite length_rev; lia).
    simpl. intros [= ->]. discriminate.
Qed.

(** Stripping the title does not move the first separator into it. *)
Lemma no_blank_line_in_title t b B :
  Spec.starts_clean t ->
  (forall j, j < length t -> Spec.occurs_at blank_line (t ++ blank_line ++ b) j = false) ->
  forall j, j < length (strip t) ->
    Spec.occurs_at blank_line (strip t ++ blank_line ++ B) j = false.
Proof.
  intros Hs Ht j Hj.
  assert (He : Spec.ends_clean (strip t)) by apply strip_ends_clean.
  unfold strip in *. rewrite (lstrip_clean _ Hs) in *.
  destruct (rstrip_prefix t) as [w Hw].
  set (T := rstrip t) in *.
  destruct (Spec.occurs_at blank_line (T ++ blank_line ++ B) j) eqn:E; [|reflexivity].
  apply occurs_at_blank_line in E. destruct E as [E0 E1].
  rewrite nth_error_app1 in E0 by exact Hj.
  destruct (Nat.eq_dec (S j) (length T)) as [Hlast|Hin].
  - exfalso. apply (ends_clean_last _ He). rewrite <- Hlast. exact E0.
  - rewrite nth_error_app1 in E1 by lia.
    assert (Hlen : length t = length T + length w)
      by (rewrite Hw at 1; apply length_app).
    rewrite <- (Ht j) by lia. symmetry.
    apply occurs_at_blank_line.
    rewrite !nth_error_app1 by lia. rewrite Hw.
    rewrite !nth_error_app1 by lia. auto.
Qed.

Lemma title_and_body_clean m t b :
  Spec.starts_clean m -> Spec.ends_clean m -> m = t ++ blank_line ++ b ->
  Spec.starts_clean t /\ Spec.has_nonspace t = true
  /\ Spec.ends_clean b /\ Spec.has_nonspace b = true.
Proof.
  intros Hs He ->.
  destruct t as [|c t]; [discriminate Hs|].
  split; [exact Hs|]. split; [apply starts_clean_nonspace, Hs|].
  assert (Hb : b <> []).
  { intros ->. unfold Spec.ends_clean in He.
    rewrite !rev_app_distr in He. discriminate He. }
  assert (Heb : Spec.ends_clean b).
  { unfold Spec.ends_clean in *. rewrite !rev_app_distr in He.
    destruct (rev b) as [|x r] eqn:E; [exact I|]. exact He. }
  split; [exact Heb|]. apply ends_clean_nonspace; assumption.
Qed.

(** What the formatter returns is clean, and splits again into the same
    title and body. *)
Lemma format_response_fixpoint T B :
  T <> [] -> B <> [] ->
  Spec.starts_clean T -> Spec.ends_clean T ->
  Spec.starts_clean B -> Spec.ends_clean B ->
  (forall j, j < length T -> Spec.occurs_at blank_line (T ++ blank_line ++ B) j = false) ->
  format_response (T ++ blank_line ++ B) = Return (T ++ blank_line ++ B).
Proof.
  intros HT HB HsT HeT HsB HeB Hocc.
  assert (Hc : strip (T ++ blank_line ++ B) = T ++ blank_line ++ B).
  { apply strip_clean.
    - apply starts_clean_app; assumption.
    - rewrite app_assoc. apply ends_clean_app; assumption. }
  rewrite (format_response_parts (T ++ blank_line ++ B) T B).
  - rewrite (strip_clean _ HsT HeT), (strip_clean _ HsB HeB). reflexivity.
  - rewrite Hc. apply partition_first_app, Hocc.
Qed.

(** ** The orchestration *)

Section Orchestration.

Variable self : DiffAnalyzer.
Variable max_tokens : Z.

Local Abbreviation prompt_of changes :=
  (build_prompt (_prepare_diff_summary changes)).

Lemma generate_outcome_raise e :
  outcome (get_staged_changes self) = Raise e ->
  outcome (generate_commit_message self max_tokens) = Raise e.
Proof. apply outcome_bind_raise. Qed.

Lemma generate_outcome_empty :
  outcome (get_staged_changes self) = Return [] ->
  outcome (generate_commit_message self max_tokens) = Return no_staged_changes.
Proof.
  intros H. unfold generate_commit_message.
  rewrite (outcome_bind_return _ _ [] H). reflexivity.
Qed.

Lemma generate_trace_empty :
  outcome (get_staged_changes self) = Return [] ->
  trace (generate_commit_message self max_tokens) = trace (get_staged_changes self).
Proof.
  intros H. unfold generate_commit_message.
  rewrite (trace_bind_return _ _ [] H). apply app_nil_r.
Qed.

Lemma generate_trace_raise e :
  outcome (get_staged_changes self) = Raise e ->
  trace (generate_commit_message self max_tokens) = trace (get_staged_changes self).
Proof. apply trace_bind_raise. Qed.

Lemma generate_trace changes :
  outcome (get_staged_changes self) = Return changes -> changes <> [] ->
  trace (generate_commit_message self max_tokens) =
  trace (get_staged_changes self)
  ++ [EvGenerateContent (prompt_of changes) (generation_config max_tokens)].
Proof.
  intros H Hne. unfold generate_commit_message.
  rewrite (trace_bind_return _ _ changes H). f_equal.
  destruct changes as [|c cs]; [contradiction|].
  unfold call, lift, ret, try_except, bind, trace.
  destruct (Genai.generate_content _ _ _) as [resp|e]; [|reflexivity].
  destruct (Genai.text resp) as [txt|e]; [|reflexivity].
  destruct (format_response txt); reflexivity.
Qed.

Lemma generate_outcome changes :
  outcome (get_staged_changes self) = Return changes -> changes <> [] ->
  outcome (generate_commit_message self max_tokens) =
  match Genai.generate_content (model self) (prompt_of changes)
          (generation_config max_tokens) with
  | Raise e => Return (error_prefix ++ exc_str e)
  | Return response =>
      match Genai.text response with
      | Raise e => Return (error_prefix ++ exc_str e)
      | Return response_text =>
          match format_response response_text with
          | Raise e => Return (error_prefix ++ exc_str e)
          | Return message => Return message
          end
      end
  end.
Proof.
  intros H Hne. unfold generate_commit_message.
  rewrite (outcome_bind_return _ _ changes H).
  destruct changes as [|c cs]; [contradiction|].
  unfold call, lift, ret, try_except, bind, outcome.
  destruct (Genai.generate_content _ _ _) as [resp|e]; [|reflexivity].
  destruct (Genai.text resp) as [txt|e]; [|reflexivity].
  destruct (format_response txt); reflexivity.
Qed.

End Orchestration.

(** ** Claims on the formatter and the orchestration *)

(** C1: when the staged-changes mapping is empty, [generate_commit_message]
    returns exactly "No staged changes found" and its trace holds no call
    of the backend's generate operation. *)
Theorem no_staged_changes_sentinel (self : DiffAnalyzer) (max_tokens : Z) :
  outcome (get_staged_changes self) = Return [] ->
  outcome (generate_commit_message self max_tokens)
    = Return (lit "No staged changes found")
  /\ filter is_generate (trace (generate_commit_message self max_tokens)) = [].
Proof.
  intros H. split.
  - apply generate_outcome_empty, H.
  - rewrite (generate_trace_empty _ _ H).
    apply quiet_filter, get_staged_changes_quiet.
Qed.

Lemma no_staged_changes_sentinel_witness :
  outcome (generate_commit_message
             (Examples.analyzer [] (Examples.answer (lit "unused"))) 300)
    = Return (lit "No staged changes found")
  /\ filter is_generate
       (trace (generate_commit_message
                 (Examples.analyzer [] (Examples.answer (lit "unused"))) 300)) = [].
Proof. apply no_staged_changes_sentinel. reflexivity. Defined.

(** C4: the formatter trims the response and splits it at the first blank
    line into at most two parts; without a separator it returns the whole
    trimmed text, otherwise the trimmed title, a blank line and the trimmed
    body.  One of the two cases always applies, and the response
    "Title line", blank line, two body paragraphs gives that title and that
    body. *)
Theorem format_response_splits_at_first_blank_line (raw : str) :
  let message := strip raw in
  length (split1 blank_line message) <= 2
  /\ (Spec.no_occurrence blank_line message = true ->
      format_response raw = Return message)
  /\ (forall i, Spec.first_occurrence blank_line message i = true ->
      format_response raw =
      Return (strip (firstn i message) ++ blank_line ++ strip (skipn (i + 2) message)))
  /\ (Spec.no_occurrence blank_line message = true
      \/ exists i, Spec.first_occurrence blank_line message i = true)
  /\ split1 blank_line (strip Examples.title_and_paragraphs)
       = [lit "Title line"; Examples.two_paragraphs]
  /\ format_response Examples.title_and_paragraphs
       = Return (lit "Title line" ++ blank_line ++ Examples.two_paragraphs).
Proof.
  intros message. split; [|split; [|split; [|split; [|split]]]].
  - unfold split1. destruct (partition_first _ _) as [[t b]|]; simpl; lia.
  - intros H. unfold format_response. fold message.
    rewrite (split1_no_occurrence _ _ H). reflexivity.
  - intros i H. unfold format_response. fold message.
    rewrite (split1_first_occurrence _ _ _ H). reflexivity.
  - destruct (partition_first blank_line message) as [[t b]|] eqn:P.
    + right. exists (length t).
      destruct (partition_first_some _ _ _ _ P) as [Hs Hj].
      unfold Spec.first_occurrence. apply andb_true_intro. split.
      * unfold Spec.occurs_at. rewrite Hs.
        rewrite skipn_app, skipn_all, Nat.sub_diag. reflexivity.
      * apply negb_true_iff, occurs_before_false, Hj.
    + left. unfold Spec.no_occurrence. apply negb_true_iff, occurs_before_false.
      intros j _. apply (partition_first_none _ _ P).
  - reflexivity.
  - reflexivity.
Qed.

Lemma format_response_splits_witness :
  format_response Examples.padded_response
    = Return (lit "Fix bug" ++ blank_line ++ lit "Details here.")
  /\ format_response (lit " one line ") = Return (lit "one line").
Proof.
  split.
  - apply (proj1 (proj2 (proj2
      (format_response_splits_at_first_blank_line Examples.padded_response))) 8).
    reflexivity.
  - apply (proj1 (proj2
      (format_response_splits_at_first_blank_line (lit " one line ")))).
    reflexivity.
Defined.

(** C10: formatting is idempotent: the formatter returns, and formatting
    what it returned gives the same text again. *)
Theorem format_response_idempotent (raw : str) :
  exists out, format_response raw = Return out /\ format_response out = Return out.
Proof.
  destruct (partition_first blank_line (strip raw)) as [[t b]|] eqn:P.
  - exists (strip t ++ blank_line ++ strip b).
    split; [apply (format_response_parts _ _ _ P)|].
    destruct (partition_first_some _ _ _ _ P) as [Hs Hj].
    destruct (title_and_body_clean (strip raw) t b
                (strip_starts_clean raw) (strip_ends_clean raw) Hs)
      as (Hst & Hnt & Heb & Hnb).
    apply format_response_fixpoint.
    + apply strip_nonempty, Hnt.
    + apply strip_nonempty, Hnb.
    + apply strip_starts_clean.
    + apply strip_ends_clean.
    + apply strip_starts_clean.
    + apply strip_ends_clean.
    + apply (no_blank_line_in_title t b (strip b) Hst).
      intros j Hlt. rewrite <- Hs. apply Hj, Hlt.
  - exists (strip raw). split; [apply (format_response_whole _ P)|].
    pose proof (format_response_whole (strip raw)) as W.
    rewrite strip_idempotent in W. apply W, P.
Qed.

Lemma find_first (f : nat -> bool) i : forall n a,
  a <= i < a + n -> (forall j, a <= j < i -> f j = false) -> f i = true ->
  find f (seq a n) = Some i.
Proof.
  induction n as [|n IH]; intros a Hi Hj Hf; [lia|]. simpl.
  destruct (Nat.eq_dec a i) as [->|Hne].
  - rewrite Hf. reflexivity.
  - rewrite (Hj a) by lia. apply IH; [lia| |exact Hf].
    intros j Hlt. apply Hj. lia.
Qed.

Lemma find_nowhere (f : nat -> bool) : forall n a,
  (forall j, f j = false) -> find f (seq a n) = None.
Proof.
  induction n as [|n IH]; intros a H; simpl; [reflexivity|].
  rewrite H. apply IH, H.
Qed.

Lemma occurs_at_middle sep x y :
  Spec.occurs_at sep (x ++ sep ++ y) (length x) = true.
Proof.
  unfold Spec.occurs_at. rewrite skipn_app, skipn_all, Nat.sub_diag.
  simpl. apply startswith_app.
Qed.

Lemma commit_message_whole s :
  partition_first blank_line s = None ->
  Spec.commit_message s = {| Spec.title := s; Spec.body := None |}.
Proof.
  intros P. unfold Spec.commit_message.
  rewrite find_nowhere; [reflexivity|]. apply (partition_first_none _ _ P).
Qed.

Lemma commit_message_parts T B :
  (forall j, j < length T -> Spec.occurs_at blank_line (T ++ blank_line ++ B) j = false) ->
  Spec.commit_message (T ++ blank_line ++ B)
    = {| Spec.title := T; Spec.body := Some B |}.
Proof.
  intros H. unfold Spec.commit_message.
  rewrite (find_first _ (length T)).
  - rewrite firstn_app, firstn_all, Nat.sub_diag, skipn_app. simpl.
    rewrite app_nil_r, skipn_all2 by lia.
    replace (length T + 2 - length T) with 2 by lia. reflexivity.
  - rewrite !length_app. simpl. lia.
  - intros j Hj. apply H. lia.
  - apply occurs_at_middle.
Qed.

Lemma strip_middle s : exists a w, s = a ++ strip s ++ w.
Proof.
  destruct (lstrip_suffix s) as [a Ha].
  destruct (rstrip_prefix (lstrip s)) as [w Hw].
  exists a, w. unfold strip. rewrite <- Hw. exact Ha.
Qed.

Lemma strip_no_occurrence sep s :
  Spec.no_occurrence sep s = true -> partition_first sep (strip s) = None.
Proof.
  unfold Spec.no_occurrence. intros H. apply negb_true_iff in H.
  destruct (partition_first sep (strip s)) as [[t b]|] eqn:P; [|reflexivity].
  destruct (partition_first_some _ _ _ _ P) as [Hs _].
  destruct (strip_middle s) as (a & w & Hd).
  rewrite Hs in Hd.
  assert (E : s = (a ++ t) ++ sep ++ (b ++ w))
    by (rewrite Hd at 1; rewrite <- !app_assoc; reflexivity).
  pose proof (occurs_at_middle sep (a ++ t) (b ++ w)) as Ho. rewrite <- E in Ho.
  rewrite (proj1 (occurs_before_false sep s _) H) in Ho; [discriminate|].
  apply (f_equal (@length _)) in E. rewrite length_app in E. lia.
Qed.

(** C5: when the backend answers with a text that has a character other
    than whitespace, the title part of the returned commit message is not
    empty; and when the answer has no blank-line separator, the result is
    the trimmed answer, a title without body. *)
Theorem title_is_never_empty (self : DiffAnalyzer) (max_tokens : Z)
    (changes : dict) (response : Genai.Response) (response_text : str) :
  outcome (get_staged_changes self) = Return changes -> changes <> [] ->
  Genai.generate_content (model self)
    (build_prompt (_prepare_diff_summary changes)) (generation_config max_tokens)
    = Return response ->
  Genai.text response = Return response_text ->
  exists message,
    outcome (generate_commit_message self max_tokens) = Return message
    /\ (Spec.has_nonspace response_text = true ->
        Spec.title (Spec.commit_message message) <> [])
    /\ (Spec.no_occurrence blank_line response_text = true ->
        message = strip response_text
        /\ Spec.commit_message message
           = {| Spec.title := strip response_text; Spec.body := None |}).
Proof.
  intros Hg Hne Hr Ht.
  rewrite (generate_outcome _ max_tokens _ Hg Hne), Hr, Ht.
  destruct (partition_first blank_line (strip response_text)) as [[t b]|] eqn:P.
  - rewrite (format_response_parts _ _ _ P).
    exists (strip t ++ blank_line ++ strip b). split; [reflexivity|].
    destruct (partition_first_some _ _ _ _ P) as [Hs Hj].
    destruct (title_and_body_clean (strip response_text) t b
                (strip_starts_clean _) (strip_ends_clean _) Hs)
      as (Hst & Hnt & Heb & Hnb).
    split.
    + intros _. rewrite commit_message_parts.
      * simpl. apply strip_nonempty, Hnt.
      * apply (no_blank_line_in_title t b (strip b) Hst).
        intros j Hlt. rewrite <- Hs. apply Hj, Hlt.
    + intros Hno. rewrite (strip_no_occurrence _ _ Hno) in P. discriminate.
  - rewrite (format_response_whole _ P).
    exists (strip response_text). split; [reflexivity|]. split.
    + intros Hn. rewrite (commit_message_whole _ P). simpl.
      apply strip_nonempty, Hn.
    + intros _. split; [reflexivity|]. apply (commit_message_whole _ P).
Qed.

Lemma title_is_never_empty_witness :
  exists message,
    outcome (generate_commit_message
               (Examples.analyzer [Examples.entry (lit "src/a.py")]
                  (Examples.answer Examples.padded_response)) 300)
      = Return message
    /\ Spec.title (Spec.commit_message message) <> [].
Proof.
  destruct (title_is_never_empty
              (Examples.analyzer [Examples.entry (lit "src/a.py")]
                 (Examples.answer Examples.padded_response)) 300
              [(lit "src/a.py", Examples.five_line_diff)]
              {| Genai.text := Return Examples.padded_response |}
              Examples.padded_response eq_refl ltac:(discriminate) eq_refl eq_refl)
    as (message & Hm & Htitle & _).
  exists message. split; [exact Hm|]. apply Htitle. reflexivity.
Defined.

Lemma get_staged_changes_repo (a b : DiffAnalyzer) :
  repo a = repo b -> get_staged_changes a = get_staged_changes b.
Proof.
  destruct a as [ra ma], b as [rb mb]. simpl. intros ->. reflexivity.
Qed.

(** The caller receives a string whenever the staged changes could be
    collected. *)
Lemma generate_returns_a_string (self : DiffAnalyzer) (max_tokens : Z)
    (changes : dict) :
  outcome (get_staged_changes self) = Return changes ->
  exists s, outcome (generate_commit_message self max_tokens) = Return s.
Proof.
  intros Hg. destruct changes as [|c cs].
  - eexists. apply (generate_outcome_empty self max_tokens Hg).
  - rewrite (generate_outcome _ max_tokens _ Hg) by discriminate.
    destruct (Genai.generate_content _ _ _) as [resp|e]; [|eexists; reflexivity].
    destruct (Genai.text resp) as [txt|e]; [|eexists; reflexivity].
    destruct (format_response_returns txt) as [out ->]. eexists; reflexivity.
Qed.

(** C6: when the backend's generate call raises, [generate_commit_message]
    does not raise: it returns "Error generating commit message: " followed
    by the description of the failure.  Once the staged changes are
    collected, the caller receives a string whatever the backend does. *)
Theorem backend_failure_is_reported (self : DiffAnalyzer) (max_tokens : Z)
    (changes : dict) (e : Exception) :
  outcome (get_staged_changes self) = Return changes -> changes <> [] ->
  Genai.generate_content (model self)
    (build_prompt (_prepare_diff_summary changes)) (generation_config max_tokens)
    = Raise e ->
  outcome (generate_commit_message self max_tokens)
    = Return (lit "Error generating commit message: " ++ exc_str e)
  /\ forall backend : Genai.GenerativeModel,
       exists s,
         outcome (generate_commit_message
                    {| repo := repo self; model := backend |} max_tokens)
         = Return s.
Proof.
  intros Hg Hne Hr. split.
  - rewrite (generate_outcome _ max_tokens _ Hg Hne), Hr. reflexivity.
  - intros backend. apply (generate_returns_a_string _ max_tokens changes).
    rewrite (get_staged_changes_repo
               {| repo := repo self; model := backend |} self eq_refl).
    exact Hg.
Qed.

Lemma backend_failure_is_reported_witness :
  outcome (generate_commit_message
             (Examples.analyzer [Examples.entry (lit "src/a.py")] Examples.failing)
             300)
    = Return (lit "Error generating commit message: 503 backend unreachable").
Proof.
  refine (proj1 (backend_failure_is_reported
           (Examples.analyzer [Examples.entry (lit "src/a.py")] Examples.failing)
           300 [(lit "src/a.py", Examples.five_line_diff)] Examples.unreachable
           _ _ _)).
  - reflexivity.
  - discriminate.
  - reflexivity.
Defined.

(** C8: every call of the backend's generate operation made by
    [generate_commit_message] carries the configuration
    max_output_tokens = max_tokens, temperature = 0.7, top_p = 0.8,
    top_k = 40, whatever the diffs are; exactly one such call is made when
    there are staged changes, and the default budget is 300. *)
Theorem generate_call_configuration (self : DiffAnalyzer) (max_tokens : Z) :
  (forall ev,
     In ev (trace (generate_commit_message self max_tokens)) ->
     is_generate ev = true ->
     exists prompt,
       ev = EvGenerateContent prompt
              {| max_output_tokens := max_tokens; temperature := 0.7%float;
                 top_p := 0.8%float; top_k := 40 |})
  /\ (forall changes,
        outcome (get_staged_changes self) = Return changes -> changes <> [] ->
        filter is_generate (trace (generate_commit_message self max_tokens))
        = [EvGenerateContent (build_prompt (_prepare_diff_summary changes))
             {| max_output_tokens := max_tokens; temperature := 0.7%float;
                top_p := 0.8%float; top_k := 40 |}])
  /\ default_max_tokens = 300%Z.
Proof.
  pose proof (get_staged_changes_quiet self) as Hq.
  split; [|split; [|reflexivity]].
  - intros ev Hin Hgen.
    assert (Hnot : ~ In ev (trace (get_staged_changes self))).
    { intros Hi. rewrite Forall_forall in Hq. specialize (Hq ev Hi).
      unfold Spec.quiet in Hq. congruence. }
    destruct (outcome (get_staged_changes self)) as [[|c cs]|e] eqn:Hg.
    + rewrite (generate_trace_empty _ _ Hg) in Hin. contradiction.
    + rewrite (generate_trace _ max_tokens (c :: cs) Hg) in Hin by discriminate.
      apply in_app_or in Hin. destruct Hin as [Hi|[<-|[]]]; [contradiction|].
      eexists. reflexivity.
    + rewrite (generate_trace_raise _ _ _ Hg) in Hin. contradiction.
  - intros changes Hg Hne.
    rewrite (generate_trace _ max_tokens changes Hg Hne), filter_app.
    rewrite (quiet_filter _ Hq). reflexivity.
Qed.

Lemma generate_call_configuration_witness :
  filter is_generate
    (trace (generate_commit_message
              (Examples.analyzer [Examples.entry (lit "src/a.py")]
                 (Examples.answer Examples.padded_response)) 120))
  = [EvGenerateContent
       (build_prompt
          (_prepare_diff_summary [(lit "src/a.py", Examples.five_line_diff)]))
       {| max_output_tokens := 120; temperature := 0.7%float;
          top_p := 0.8%float; top_k := 40 |}].
Proof.
  apply (proj1 (proj2 (generate_call_configuration
           (Examples.analyzer [Examples.entry (lit "src/a.py")]
              (Examples.answer Examples.padded_response)) 120))).
  - reflexivity.
  - discriminate.
Defined.

(** ** The collector and the handler of the constructor *)

Lemma dedup_nil l : Spec.dedup l = [] <-> l = [].
Proof. destruct l; simpl; split; congruence. Qed.

(** X20: when the two index queries and the cached diffs of the source
    paths can be read, [get_staged_changes] returns a mapping whose keys are
    the distinct source paths of the entries of the first query followed by
    those of the second, in the order they are met, each mapped to the
    cached diff text of its path; the mapping is empty exactly when no
    entry has a source path. *)
Theorem staged_changes_mapping (self : DiffAnalyzer)
    (head_entries new_entries : list Git.Diff) :
  Git.index_diff (repo self) (Some (lit "HEAD")) = Return head_entries ->
  Git.index_diff (repo self) None = Return new_entries ->
  (forall p, In p (Spec.source_paths (head_entries ++ new_entries)) ->
             exists d, Git.git_diff (repo self) [lit "--cached"; p] = Return d) ->
  exists m,
    outcome (get_staged_changes self) = Return m
    /\ keys m = Spec.dedup (Spec.source_paths (head_entries ++ new_entries))
    /\ (forall k v, dict_get m k = Some v <->
          In k (Spec.source_paths (head_entries ++ new_entries))
          /\ Git.git_diff (repo self) [lit "--cached"; k] = Return v)
    /\ (m = [] <-> Spec.source_paths (head_entries ++ new_entries) = []).
Proof.
  intros Hh Hn Hc.
  destruct (loop_returns self (head_entries ++ new_entries) [] [])
    as (m & Hm & Hk & Hv).
  - reflexivity.
  - intros k v. simpl. split; [discriminate|intros [[] _]].
  - exact Hc.
  - exists m. split; [|split; [exact Hk|split; [exact Hv|]]].
    + unfold get_staged_changes. rewrite Hh, Hn.
      unfold call, bind at 1 2.
      destruct (for_each _ _ _) as [r t]. exact Hm.
    + simpl in Hk. rewrite <- dedup_nil, <- Hk. unfold keys.
      destruct m; simpl; split; congruence.
Qed.

Lemma staged_changes_mapping_witness :
  exists m,
    outcome (get_staged_changes
               (Examples.analyzer
                  [Examples.entry (lit "src/a.py"); Examples.pathless;
                   Examples.entry (lit "docs/c.md"); Examples.entry (lit "src/a.py")]
                  (Examples.answer []))) = Return m
    /\ keys m = [lit "src/a.py"; lit "docs/c.md"].
Proof.
  destruct (staged_changes_mapping
              (Examples.analyzer
                 [Examples.entry (lit "src/a.py"); Examples.pathless;
                  Examples.entry (lit "docs/c.md"); Examples.entry (lit "src/a.py")]
                 (Examples.answer []))
              [Examples.entry (lit "src/a.py"); Examples.pathless;
               Examples.entry (lit "docs/c.md"); Examples.entry (lit "src/a.py")]
              [] eq_refl eq_refl) as (m & Hm & Hk & _).
  - intros p _. exists Examples.five_line_diff. reflexivity.
  - exists m. split; [exact Hm|exact Hk].
Defined.

Lemma join_cons sep p ps :
  join sep (p :: ps) = match ps with [] => p | _ :: _ => p ++ sep ++ join sep ps end.
Proof. destruct ps; reflexivity. Qed.

Lemma join_contains sep x : forall l, In x l -> Spec.contains (join sep l) x.
Proof.
  induction l as [|p ps IH]; intros Hin; [contradiction|].
  rewrite join_cons. destruct Hin as [->|Hin].
  - destruct ps as [|q qs].
    + exists [], []. rewrite app_nil_r. reflexivity.
    + exists [], (sep ++ join sep (q :: qs)). reflexivity.
  - destruct ps as [|q qs]; [contradiction|].
    destruct (IH Hin) as (a & b & E). rewrite E.
    exists (p ++ sep ++ a), b. rewrite <- !app_assoc. reflexivity.
Qed.

Lemma contains_app_r pre s x : Spec.contains s x -> Spec.contains (pre ++ s) x.
Proof.
  intros (a & b & ->). exists (pre ++ a), b. rewrite <- app_assoc. reflexivity.
Qed.

(** X21: the handler of the constructor: when the repository opens, the
    construction of the model raises and the listing of models can be read,
    the constructor raises a ValueError whose message is
    "Invalid model name: <name>. Available models: " followed by the listed
    names joined by ", ", so that it contains every listed name. *)
Theorem unrecognized_model_lists_available
    (git_Repo : str -> result Git.Repo) (genai : Genai.Backend)
    (repo_path : str) (api_key : option str) (model_name : str)
    (r : Git.Repo) (e : Exception) (models : list Genai.Model) :
  git_Repo repo_path = Return r ->
  Genai.new_model genai model_name = Raise e ->
  Genai.list_models genai = Return models ->
  outcome (__init__ git_Repo genai repo_path api_key model_name)
    = Raise (ValueError (lit "Invalid model name: " ++ model_name
                         ++ lit ". Available models: "
                         ++ join (lit ", ") (map Genai.name models)))
  /\ forall m, In m models ->
       Spec.contains
         (lit "Invalid model name: " ++ model_name ++ lit ". Available models: "
          ++ join (lit ", ") (map Genai.name models))
         (Genai.name m).
Proof.
  intros Hr He Hl. split.
  - unfold __init__. rewrite Hr, He, Hl.
    destruct api_key as [k|]; [destruct (truthy k)|]; reflexivity.
  - intros m Hin. rewrite !app_assoc. apply contains_app_r.
    apply join_contains, in_map, Hin.
Qed.

Lemma unrecognized_model_lists_available_witness :
  outcome (__init__ Examples.open_repo
             (Examples.backend [lit "models/gemini-2.0-flash"; lit "models/gemini-pro"])
             default_repo_path None (lit "gemini-9"))
  = Raise (ValueError (lit "Invalid model name: gemini-9. Available models: models/gemini-2.0-flash, models/gemini-pro")).
Proof.
  refine (proj1 (unrecognized_model_lists_available
            Examples.open_repo
            (Examples.backend [lit "models/gemini-2.0-flash"; lit "models/gemini-pro"])
            default_repo_path None (lit "gemini-9")
            (Examples.repo_with []) Examples.not_found
            [ {| Genai.name := lit "models/gemini-2.0-flash" |};
              {| Genai.name := lit "models/gemini-pro" |} ] _ _ _)); reflexivity.
Defined.

(** ** The diff summarizer *)

Lemma startswith_single c l : startswith [c] l = Spec.first_char_is c l.
Proof.
  destruct l as [|x l]; simpl; [reflexivity|].
  rewrite andb_true_r. apply N.eqb_sym.
Qed.

Lemma summary_of_item (file_path diff : str) :
  (let filename := Pathlib.name file_path in
   let lines := split_char 10%N diff in
   let added := length (filter (startswith plus) lines) in
   let removed := length (filter (startswith minus) lines) in
   let summary := lit "File: " ++ filename in
   let summary :=
     if negb (added =? 0) || negb (removed =? 0)
     then summary ++ lit " (" ++ of_nat added ++ lit " added, "
                  ++ of_nat removed ++ lit " removed)"
     else summary in
   let change_lines :=
     firstn 3 (filter (fun l => startswith plus l || startswith minus l) lines) in
   match change_lines with
   | [] => summary
   | _ :: _ => summary ++ LF ++ lit "Changes:" ++ LF ++ join LF change_lines
   end)
  = Spec.block (file_path, diff).
Proof.
  unfold Spec.block, Spec.render, Spec.digest_of, plus, minus. cbn zeta. simpl fst. simpl snd.
  cbn [Spec.filename Spec.addedLineCount Spec.removedLineCount Spec.sampleLines].
  rewrite (filter_ext _ _ (startswith_single 43%N)).
  rewrite (filter_ext _ _ (startswith_single 45%N)).
  rewrite (filter_ext (fun l => startswith (lit "+") l || startswith (lit "-") l)
             (fun l => Spec.first_char_is 43%N l || Spec.first_char_is 45%N l))
    by (intros l; change (lit "+") with [43%N]; change (lit "-") with [45%N];
        rewrite !startswith_single; reflexivity).
  set (a := length (filter (Spec.first_char_is 43%N) (split_char 10%N diff))).
  set (r := length (filter (Spec.first_char_is 45%N) (split_char 10%N diff))).
  set (ls := firstn 3 _).
  assert (Hc : (if negb (a =? 0) || negb (r =? 0)
                then (lit "File: " ++ Pathlib.name file_path) ++ lit " (" ++ of_nat a
                     ++ lit " added, " ++ of_nat r ++ lit " removed)"
                else lit "File: " ++ Pathlib.name file_path)
               = lit "File: " ++ Pathlib.name file_path
                 ++ (if (a =? 0) && (r =? 0) then []
                     else lit " (" ++ of_nat a ++ lit " added, " ++ of_nat r
                                   ++ lit " removed)")).
  { destruct (a =? 0); destruct (r =? 0); cbn [negb orb andb];
      rewrite <- ?app_assoc, ?app_nil_r; reflexivity. }
  rewrite Hc. destruct ls as [|l0 ls']; rewrite <- ?app_assoc, ?app_nil_r; reflexivity.
Qed.

Lemma prepare_diff_summary_blocks (staged_changes : dict) :
  _prepare_diff_summary staged_changes
  = join blank_line (map Spec.block staged_changes).
Proof.
  unfold _prepare_diff_summary.
  match goal with
  | |- join _ (fold_left ?f _ _) = _ =>
      assert (H : forall l init, fold_left f l init = init ++ map Spec.block l)
  end.
  { induction l as [|[file_path diff] l IH]; intros init; cbn [fold_left map].
    - symmetry. apply app_nil_r.
    - rewrite IH, <- app_assoc. cbn [app]. do 2 f_equal.
      exact (summary_of_item file_path diff). }
  rewrite H. reflexivity.
Qed.

(** C2: the digest is the blocks of the files, in the order of the mapping,
    joined by one blank line; a block is the header "File: <filename>",
    the counts of the lines starting with + and with - when one of them is
    not zero, and up to three changed lines under "Changes:".  For a diff
    whose lines are +a, +b, -c, +d, -e the block is the header with
    "(3 added, 2 removed)" and the lines +a, +b, -c. *)
Theorem diff_summary_of_five_lines (staged_changes : dict) :
  _prepare_diff_summary staged_changes
    = join blank_line (map Spec.block staged_changes)
  /\ forall i file_path diff,
       nth_error staged_changes i = Some (file_path, diff) ->
       split_char 10%N diff = Examples.five_lines ->
       let block :=
         lit "File: " ++ Pathlib.name file_path ++ lit " (3 added, 2 removed)"
         ++ LF ++ lit "Changes:" ++ LF ++ lit "+a" ++ LF ++ lit "+b" ++ LF ++ lit "-c" in
       nth_error (map Spec.block staged_changes) i = Some block
       /\ Spec.contains (_prepare_diff_summary staged_changes) block.
Proof.
  split; [apply prepare_diff_summary_blocks|].
  intros i file_path diff Hi Hl block.
  assert (Hb : nth_error (map Spec.block staged_changes) i = Some block).
  { rewrite nth_error_map, Hi. simpl. f_equal.
    unfold Spec.block, Spec.render, Spec.digest_of. simpl fst. simpl snd.
    rewrite Hl. reflexivity. }
  split; [exact Hb|].
  rewrite prepare_diff_summary_blocks.
  apply join_contains. apply (nth_error_In _ _ Hb).
Qed.

Lemma diff_summary_of_five_lines_witness :
  nth_error
    (map Spec.block [(lit "README.md", lit "+x"); (lit "src/a.py", Examples.five_line_diff)])
    1
  = Some (lit "File: a.py (3 added, 2 removed)
Changes:
+a
+b
-c")
  /\ _prepare_diff_summary
       [(lit "README.md", lit "+x"); (lit "src/a.py", Examples.five_line_diff)]
     = lit "File: README.md (1 added, 0 removed)
Changes:
+x

File: a.py (3 added, 2 removed)
Changes:
+a
+b
-c".
Proof.
  split.
  - apply (proj2 (diff_summary_of_five_lines
             [(lit "README.md", lit "+x"); (lit "src/a.py", Examples.five_line_diff)])
             1 (lit "src/a.py") Examples.five_line_diff); reflexivity.
  - rewrite (proj1 (diff_summary_of_five_lines _)). reflexivity.
Defined.

(** ** The scope: counting and the most common label *)

Lemma dedup_NoDup l : NoDup (Spec.dedup l).
Proof.
  induction l as [|x l IH]; simpl; constructor.
  - rewrite filter_In, eqb_refl. intros [_ H]. discriminate H.
  - apply NoDup_filter, IH.
Qed.

Lemma incr_tally (g : str -> nat) (x : str) : forall D,
  NoDup D ->
  Collections.incr (map (fun k => (k, g k)) D) x =
  if in_dec Str.eq_dec x D
  then map (fun k => (k, if Str.eqb k x then S (g k) else g k)) D
  else map (fun k => (k, g k)) D ++ [(x, 1)].
Proof.
  induction D as [|k D IH]; intros Hnd; simpl.
  - reflexivity.
  - inversion Hnd as [|? ? Hk HD]; subst.
    destruct (Str.eqb k x) eqn:E.
    + apply eqb_true_iff in E. subst k.
      destruct (Str.eq_dec x x) as [Hxx|Hxx]; [|congruence].
      f_equal. apply map_ext_in. intros k' Hin.
      destruct (Str.eqb k' x) eqn:E'; [|reflexivity].
      apply eqb_true_iff in E'. subst k'. contradiction.
    + apply eqb_false_iff in E. rewrite (IH HD).
      destruct (Str.eq_dec k x) as [Heq|Hne]; [congruence|].
      destruct (in_dec Str.eq_dec x D); reflexivity.
Qed.

Lemma count_snoc k x l :
  Spec.count k (l ++ [x]) = if Str.eqb k x then S (Spec.count k l) else Spec.count k l.
Proof.
  unfold Spec.count. rewrite count_occ_app. simpl.
  destruct (Str.eq_dec x k) as [->|Hne].
  - rewrite eqb_refl. lia.
  - assert (E : Str.eqb k x = false) by (apply eqb_false_iff; congruence).
    rewrite E. lia.
Qed.

Lemma count_absent x l : ~ In x l -> Spec.count x l = 0.
Proof. apply count_occ_not_In. Qed.

Lemma count_present x l : In x l -> 0 < Spec.count x l.
Proof. apply count_occ_In. Qed.

(** The counter of a list: its distinct elements in the order of their
    first occurrence, each with its number of occurrences. *)
Lemma count_elements_tally l :
  Collections.count_elements l = map (fun k => (k, Spec.count k l)) (Spec.dedup l).
Proof.
  unfold Collections.count_elements.
  induction l as [|x l IH] using rev_ind; [reflexivity|].
  rewrite fold_left_app. simpl. rewrite IH, (incr_tally _ _ _ (dedup_NoDup l)).
  rewrite dedup_snoc.
  destruct (in_dec Str.eq_dec x (Spec.dedup l)) as [Hi|Hn];
    destruct (in_dec Str.eq_dec x l) as [Hi'|Hn'].
  - apply map_ext. intros k. rewrite count_snoc. reflexivity.
  - exfalso. apply Hn'. apply dedup_In. exact Hi.
  - exfalso. apply Hn. apply dedup_In. exact Hi'.
  - rewrite map_app. simpl. rewrite count_snoc, eqb_refl, (count_absent _ _ Hn').
    f_equal. apply map_ext_in. intros k Hk. rewrite count_snoc.
    destruct (Str.eqb k x) eqn:E; [|reflexivity].
    apply eqb_true_iff in E. subst k. contradiction.
Qed.

(** [max_item] returns the first item of greatest count. *)
Lemma max_item_first : forall items best,
  exists pre post,
    best :: items = pre ++ Collections.max_item best items :: post
    /\ (forall x, In x pre -> snd x < snd (Collections.max_item best items))
    /\ (forall x, In x post -> snd x <= snd (Collections.max_item best items)).
Proof.
  induction items as [|x items IH]; intros best; simpl.
  - exists [], []. split; [reflexivity|]. split; intros ? [].
  - destruct (snd best <? snd x) eqn:E.
    + apply Nat.ltb_lt in E. destruct (IH x) as (pre & post & Hd & Hpre & Hpost).
      exists (best :: pre), post. split; [simpl; f_equal; exact Hd|].
      split; [|exact Hpost].
      intros y [<-|Hy]; [|apply Hpre, Hy].
      destruct pre as [|p pre].
      * injection Hd as <- _. exact E.
      * injection Hd as <- _. specialize (Hpre x (or_introl eq_refl)). lia.
    + apply Nat.ltb_ge in E. destruct (IH best) as (pre & post & Hd & Hpre & Hpost).
      destruct pre as [|p pre].
      * injection Hd as Hr Hp. exists [], (x :: post).
        split; [simpl; rewrite <- Hr, <- Hp; reflexivity|].
        split; [intros ? []|].
        intros y [<-|Hy]; [rewrite <- Hr; exact E|apply Hpost, Hy].
      * injection Hd as <- Hp. exists (best :: x :: pre), post.
        split; [simpl; do 2 f_equal; exact Hp|]. split; [|exact Hpost].
        pose proof (Hpre best (or_introl eq_refl)) as Hb.
        intros y [<-|[<-|Hy]]; [exact Hb|lia|apply Hpre; right; exact Hy].
Qed.

Lemma filter_split (p : str -> bool) r : forall L A B,
  filter p L = A ++ r :: B ->
  exists A' B', L = A' ++ r :: B' /\ forall d, In d B -> In d B'.
Proof.
  induction L as [|a L IH]; intros A B H; simpl in H.
  - destruct A; discriminate H.
  - destruct (p a) eqn:E.
    + destruct A as [|a' A]; simpl in H.
      * injection H as -> HB. exists [], L. split; [reflexivity|].
        intros d Hd. rewrite <- HB in Hd. apply filter_In in Hd. apply Hd.
      * injection H as <- HA. destruct (IH A B HA) as (A' & B' & -> & Hsub).
        exists (a :: A'), B'. split; [reflexivity|exact Hsub].
    + destruct (IH A B H) as (A' & B' & -> & Hsub).
      exists (a :: A'), B'. split; [reflexivity|exact Hsub].
Qed.

(** In [dedup l] the elements stand in the order of their first
    occurrence in [l]. *)
Lemma dedup_order : forall l A r B,
  Spec.dedup l = A ++ r :: B ->
  forall d, In d B -> Spec.index_of r l < Spec.index_of d l.
Proof.
  induction l as [|x l IH]; intros A r B H d Hd; simpl in H.
  - destruct A; discriminate H.
  - destruct A as [|a A]; simpl in H.
    + injection H as -> HB. simpl. rewrite eqb_refl.
      rewrite <- HB in Hd. apply filter_In in Hd. destruct Hd as [_ Hd].
      apply negb_true_iff in Hd. rewrite eqb_sym, Hd. lia.
    + injection H as <- HA.
      assert (Hr : In r (filter (fun y => negb (Str.eqb y x)) (Spec.dedup l)))
        by (rewrite HA; apply in_elt).
      assert (Hd' : In d (filter (fun y => negb (Str.eqb y x)) (Spec.dedup l)))
        by (rewrite HA; apply in_or_app; right; right; exact Hd).
      apply filter_In in Hr. destruct Hr as [_ Hr]. apply negb_true_iff in Hr.
      apply filter_In in Hd'. destruct Hd' as [_ Hd']. apply negb_true_iff in Hd'.
      destruct (filter_split _ _ _ _ _ HA) as (A' & B' & HL & Hsub).
      simpl. rewrite (eqb_sym x r), Hr, (eqb_sym x d), Hd'.
      apply -> Nat.succ_lt_mono. apply (IH A' r B' HL d), Hsub, Hd.
Qed.

Lemma most_common_first (dirs : list str) :
  dirs <> [] ->
  exists top,
    Collections.most_common_1 (Collections.count_elements dirs) = [top]
    /\ In (fst top) dirs
    /\ (forall d, Spec.count d dirs <= Spec.count (fst top) dirs)
    /\ (forall d, Spec.count d dirs = Spec.count (fst top) dirs ->
                  Spec.index_of (fst top) dirs <= Spec.index_of d dirs).
Proof.
  intros Hne. rewrite count_elements_tally.
  set (tally := fun k => (k, Spec.count k dirs)).
  destruct (Spec.dedup dirs) as [|d0 D] eqn:HD.
  { apply (proj1 (dedup_nil dirs)) in HD. contradiction. }
  simpl. destruct (max_item_first (map tally D) (tally d0))
    as (pre & post & Hd & Hpre & Hpost).
  set (top := Collections.max_item (tally d0) (map tally D)) in *.
  change (tally d0 :: map tally D) with (map tally (d0 :: D)) in Hd.
  rewrite <- HD in Hd.
  apply map_eq_app in Hd. destruct Hd as (Dpre & Drest & Hsplit & Hmpre & Hmrest).
  apply map_eq_cons in Hmrest. destruct Hmrest as (rk & Dpost & -> & Htop & Hmpost).
  assert (Hfst : fst top = rk) by (rewrite <- Htop; reflexivity).
  assert (Hsnd : snd top = Spec.count rk dirs) by (rewrite <- Htop; reflexivity).
  assert (Hin : In rk dirs) by (apply dedup_In; rewrite Hsplit; apply in_elt).
  assert (Hcases : forall d, In d dirs ->
            (In d Dpre /\ Spec.count d dirs < Spec.count rk dirs)
            \/ d = rk
            \/ (In d Dpost /\ Spec.count d dirs <= Spec.count rk dirs)).
  { intros d Hd. apply dedup_In in Hd. rewrite Hsplit in Hd.
    apply in_app_or in Hd. destruct Hd as [Hd|[Hd|Hd]].
    - left. split; [exact Hd|]. rewrite <- Hsnd.
      apply (Hpre (tally d)). rewrite <- Hmpre. apply in_map, Hd.
    - right. left. symmetry. exact Hd.
    - right. right. split; [exact Hd|]. rewrite <- Hsnd.
      apply (Hpost (tally d)). rewrite <- Hmpost. apply in_map, Hd. }
  exists top. rewrite Hfst. split; [reflexivity|]. split; [exact Hin|]. split.
  - intros d. destruct (in_dec Str.eq_dec d dirs) as [Hd|Hd].
    + destruct (Hcases d Hd) as [[_ H]|[->|[_ H]]]; lia.
    + rewrite (count_absent _ _ Hd). lia.
  - intros d Heq. destruct (in_dec Str.eq_dec d dirs) as [Hd|Hd].
    + destruct (Hcases d Hd) as [[_ H]|[->|[Hp _]]]; [lia|lia|].
      apply Nat.lt_le_incl. apply (dedup_order dirs Dpre rk Dpost Hsplit d Hp).
    + pose proof (count_present _ _ Hin). rewrite (count_absent _ _ Hd) in Heq. lia.
Qed.

Lemma scope_label_eq f :
  (if 1 <? length (Pathlib.parts f) then hd [] (Pathlib.parts f) else misc)
  = Spec.scope_label f.
Proof.
  unfold Spec.scope_label. destruct (Pathlib.parts f) as [|a [|b ps]]; reflexivity.
Qed.

(** ** Paths made of plain segments *)

Lemma split_char_until (c : char) (rest : str) : forall p : str,
  existsb (N.eqb c) p = false ->
  split_char c (p ++ c :: rest) = p :: split_char c rest.
Proof.
  induction p as [|x p IH]; simpl; intros H.
  - rewrite N.eqb_refl. reflexivity.
  - apply orb_false_elim in H. destruct H as [Hx Hp].
    rewrite N.eqb_sym, Hx, (IH Hp). reflexivity.
Qed.

Lemma split_char_plain (c : char) : forall p : str,
  existsb (N.eqb c) p = false -> split_char c p = [p].
Proof.
  induction p as [|x p IH]; simpl; intros H; [reflexivity|].
  apply orb_false_elim in H. destruct H as [Hx Hp].
  rewrite N.eqb_sym, Hx, (IH Hp). reflexivity.
Qed.

Lemma split_char_join (c : char) : forall segs : list str,
  segs <> [] ->
  forallb (fun x => negb (existsb (N.eqb c) x)) segs = true ->
  split_char c (join [c] segs) = segs.
Proof.
  induction segs as [|s segs IH]; intros Hne H; [contradiction|].
  simpl in H. apply andb_prop in H. destruct H as [Hs Hrest].
  apply negb_true_iff in Hs. rewrite join_cons. destruct segs as [|s' segs].
  - apply split_char_plain, Hs.
  - change ([c] ++ join [c] (s' :: segs)) with (c :: join [c] (s' :: segs)).
    rewrite (split_char_until _ _ _ Hs). f_equal. apply IH; [discriminate|exact Hrest].
Qed.

Lemma splitroot_relative (a : char) (r : str) :
  (Pathlib.slash =? a)%N = false -> Pathlib.splitroot (a :: r) = ([], a :: r).
Proof.
  intros Ha. unfold Pathlib.splitroot. cbn [firstn].
  assert (E : Str.eqb [a] [Pathlib.slash] = false).
  { apply eqb_false_iff. intros [= ->]. rewrite N.eqb_refl in Ha. discriminate Ha. }
  rewrite E. reflexivity.
Qed.

Lemma parts_of_plain_segments (segs : list str) :
  segs <> [] -> forallb Spec.plain_segment segs = true ->
  Pathlib.parts (join [Pathlib.slash] segs) = segs.
Proof.
  intros Hne H.
  assert (Hall : forall x, In x segs -> Spec.plain_segment x = true)
    by (apply forallb_forall; exact H).
  assert (Hsl : forallb (fun x => negb (existsb (N.eqb Pathlib.slash) x)) segs = true).
  { apply forallb_forall. intros x Hx. specialize (Hall x Hx).
    unfold Spec.plain_segment in Hall. apply andb_prop in Hall. apply Hall. }
  assert (Hroot : Pathlib.splitroot (join [Pathlib.slash] segs)
                  = ([], join [Pathlib.slash] segs)).
  { destruct segs as [|s segs]; [contradiction|].
    pose proof (Hall s (or_introl eq_refl)) as Hs. unfold Spec.plain_segment in Hs.
    apply andb_prop in Hs. destruct Hs as [Hs Hns]. apply andb_prop in Hs.
    destruct Hs as [Ht _]. apply negb_true_iff in Hns.
    destruct s as [|a s]; [discriminate Ht|]. cbn [existsb] in Hns.
    apply orb_false_elim in Hns. destruct Hns as [Ha _].
    rewrite join_cons. destruct segs; apply splitroot_relative, Ha. }
  unfold Pathlib.parts, Pathlib.tail_of. rewrite Hroot. simpl fst. simpl snd.
  cbn [truthy]. rewrite (split_char_join _ _ Hne Hsl).
  apply forallb_filter_id. apply forallb_forall. intros x Hx.
  specialize (Hall x Hx). unfold Spec.plain_segment in Hall.
  apply andb_prop in Hall. apply Hall.
Qed.

(** * Further properties *)

(** ** The constructor *)

(** X1: when the repository opens and the backend accepts the model name,
    the constructor returns the analyzer of that repository and that model;
    it opens the repository, configures the API key exactly when one is
    given and not empty, constructs the model, and never asks for the
    listing of models. *)
Theorem init_accepted
    (git_Repo : str -> result Git.Repo) (genai : Genai.Backend)
    (repo_path : str) (api_key : option str) (model_name : str)
    (r : Git.Repo) (m : Genai.GenerativeModel) :
  git_Repo repo_path = Return r ->
  Genai.new_model genai model_name = Return m ->
  __init__ git_Repo genai repo_path api_key model_name
  = (Return {| repo := r; model := m |},
     EvRepo repo_path :: Cases.configure_calls api_key
       ++ [EvGenerativeModel model_name]).
Proof.
  intros Hr Hm. unfold __init__, Cases.configure_calls. rewrite Hr, Hm.
  destruct api_key as [k|]; [destruct (truthy k)|]; reflexivity.
Qed.

Lemma init_accepted_witness :
  trace (__init__ Examples.open_repo (Examples.backend [lit "gemini-2.0-flash"])
           default_repo_path (Some (lit "secret")) default_model_name)
  = [EvRepo (lit "."); EvConfigure (lit "secret");
     EvGenerativeModel (lit "gemini-2.0-flash")]
  /\ trace (__init__ Examples.open_repo (Examples.backend [lit "gemini-2.0-flash"])
              default_repo_path (Some []) default_model_name)
     = [EvRepo (lit "."); EvGenerativeModel (lit "gemini-2.0-flash")].
Proof.
  split.
  - rewrite (init_accepted Examples.open_repo
               (Examples.backend [lit "gemini-2.0-flash"]) default_repo_path
               (Some (lit "secret")) default_model_name
               (Examples.repo_with []) (Examples.answer []) eq_refl eq_refl).
    reflexivity.
  - rewrite (init_accepted Examples.open_repo
               (Examples.backend [lit "gemini-2.0-flash"]) default_repo_path
               (Some []) default_model_name
               (Examples.repo_with []) (Examples.answer []) eq_refl eq_refl).
    reflexivity.
Defined.

(** X2: when the repository cannot be opened the constructor raises that
    failure, whatever the model name, and the backend is not touched: no
    key is configured, no model constructed, no listing read. *)
Theorem init_repo_failure
    (git_Repo : str -> result Git.Repo) (genai : Genai.Backend)
    (repo_path : str) (api_key : option str) (model_name : str)
    (e : Exception) :
  git_Repo repo_path = Raise e ->
  __init__ git_Repo genai repo_path api_key model_name
  = (Raise e, [EvRepo repo_path]).
Proof. intros Hr. unfold __init__. rewrite Hr. reflexivity. Qed.

Lemma init_repo_failure_witness :
  __init__ Cases.no_repo (Examples.backend [lit "gemini-2.0-flash"])
    (lit "/tmp/nowhere") (Some (lit "secret")) (lit "gemini-9")
  = (Raise Cases.invalid_repository, [EvRepo (lit "/tmp/nowhere")]).
Proof. apply init_repo_failure. reflexivity. Defined.

(** X3: when the backend rejects the model name and the listing of models
    cannot be read either, the constructor raises the failure of the
    listing, not the ValueError that names the model. *)
Theorem init_listing_failure
    (git_Repo : str -> result Git.Repo) (genai : Genai.Backend)
    (repo_path : str) (api_key : option str) (model_name : str)
    (r : Git.Repo) (e e' : Exception) :
  git_Repo repo_path = Return r ->
  Genai.new_model genai model_name = Raise e ->
  Genai.list_models genai = Raise e' ->
  __init__ git_Repo genai repo_path api_key model_name
  = (Raise e',
     EvRepo repo_path :: Cases.configure_calls api_key
       ++ [EvGenerativeModel model_name; EvListModels]).
Proof.
  intros Hr He Hl. unfold __init__, Cases.configure_calls. rewrite Hr, He, Hl.
  destruct api_key as [k|]; [destruct (truthy k)|]; reflexivity.
Qed.

Lemma init_listing_failure_witness :
  outcome (__init__ Examples.open_repo Cases.offline_backend
             default_repo_path None (lit "gemini-9"))
  = Raise Examples.unreachable.
Proof.
  rewrite (init_listing_failure Examples.open_repo Cases.offline_backend
             default_repo_path None (lit "gemini-9") (Examples.repo_with [])
             Examples.not_found Examples.unreachable eq_refl eq_refl eq_refl).
  reflexivity.
Defined.

(** ** The collector: its calls and its failures *)

Lemma loop_trace (self : DiffAnalyzer) (entries : list Git.Diff) : forall acc,
  (forall p, In p (Spec.source_paths entries) ->
             exists d, Git.git_diff (repo self) [lit "--cached"; p] = Return d) ->
  exists m,
    for_each entries acc (get_staged_changes_body self)
    = (Return m, map Cases.cached_diff_call (Spec.source_paths entries)).
Proof.
  induction entries as [|e es IH]; intros acc Hc; simpl.
  - exists acc. reflexivity.
  - unfold get_staged_changes_body at 1. simpl in Hc.
    destruct (Git.a_path e) as [p|]; [destruct (truthy p)|].
    + destruct (Hc p (or_introl eq_refl)) as [d Hd]. rewrite Hd.
      destruct (IH (dict_set acc p d)) as [m Hm].
      { intros q Hq. apply Hc. right. exact Hq. }
      exists m. unfold call, ret, bind. simpl. rewrite Hm. reflexivity.
    + rewrite bind_ret_l. apply IH, Hc.
    + rewrite bind_ret_l. apply IH, Hc.
Qed.

(** X4: when the queries succeed, [get_staged_changes] makes exactly these
    external calls, in this order: the index against HEAD, the index against
    the working tree, then one cached diff for every entry with a source
    path, a path listed twice being read twice. *)
Theorem staged_changes_calls (self : DiffAnalyzer)
    (head_entries new_entries : list Git.Diff) :
  Git.index_diff (repo self) (Some (lit "HEAD")) = Return head_entries ->
  Git.index_diff (repo self) None = Return new_entries ->
  (forall p, In p (Spec.source_paths (head_entries ++ new_entries)) ->
             exists d, Git.git_diff (repo self) [lit "--cached"; p] = Return d) ->
  trace (get_staged_changes self)
  = EvIndexDiff (Some (lit "HEAD")) :: EvIndexDiff None
    :: map Cases.cached_diff_call
         (Spec.source_paths (head_entries ++ new_entries)).
Proof.
  intros Hh Hn Hc. unfold get_staged_changes. rewrite Hh, Hn.
  destruct (loop_trace self (head_entries ++ new_entries) [] Hc) as [m Hm].
  unfold call, bind. rewrite Hm. reflexivity.
Qed.

Lemma staged_changes_calls_witness :
  trace (get_staged_changes
           (Examples.analyzer
              [Examples.entry (lit "src/a.py"); Examples.pathless;
               Examples.entry (lit "src/a.py")] (Examples.answer [])))
  = [EvIndexDiff (Some (lit "HEAD")); EvIndexDiff None;
     EvGitDiff [lit "--cached"; lit "src/a.py"];
     EvGitDiff [lit "--cached"; lit "src/a.py"]].
Proof.
  apply (staged_changes_calls
           (Examples.analyzer
              [Examples.entry (lit "src/a.py"); Examples.pathless;
               Examples.entry (lit "src/a.py")] (Examples.answer []))
           [Examples.entry (lit "src/a.py"); Examples.pathless;
            Examples.entry (lit "src/a.py")] [] eq_refl eq_refl).
  intros p _. exists Examples.five_line_diff. reflexivity.
Defined.

Lemma loop_raises (self : DiffAnalyzer) (e : Exception) (p : str)
    (post : list str) : forall entries acc pre,
  Spec.source_paths entries = pre ++ p :: post ->
  (forall q, In q pre ->
             exists d, Git.git_diff (repo self) [lit "--cached"; q] = Return d) ->
  Git.git_diff (repo self) [lit "--cached"; p] = Raise e ->
  for_each entries acc (get_staged_changes_body self)
  = (Raise e, map Cases.cached_diff_call (pre ++ [p])).
Proof.
  induction entries as [|x es IH]; intros acc pre Hs Hpre He; simpl in *.
  - destruct pre; discriminate Hs.
  - unfold get_staged_changes_body at 1.
    destruct (Git.a_path x) as [q|]; [destruct (truthy q)|].
    + destruct pre as [|q' pre]; simpl in Hs; injection Hs as Hq Hrest.
      * subst q. rewrite He. reflexivity.
      * subst q'. destruct (Hpre q (or_introl eq_refl)) as [d Hd]. rewrite Hd.
        unfold call, ret, bind. simpl.
        rewrite (IH (dict_set acc q d) pre Hrest); [reflexivity| |exact He].
        intros q' Hq'. apply Hpre. right. exact Hq'.
    + rewrite bind_ret_l. apply (IH acc pre Hs Hpre He).
    + rewrite bind_ret_l. apply (IH acc pre Hs Hpre He).
Qed.

(** X5: when the cached diff of a source path cannot be read,
    [get_staged_changes] raises the failure of the first such path; the
    diffs read before it are dropped and no later path is read.
    [generate_commit_message] raises the same failure and does not call the
    backend. *)
Theorem cached_diff_failure (self : DiffAnalyzer) (max_tokens : Z)
    (head_entries new_entries : list Git.Diff) (pre post : list str)
    (p : str) (e : Exception) :
  Git.index_diff (repo self) (Some (lit "HEAD")) = Return head_entries ->
  Git.index_diff (repo self) None = Return new_entries ->
  Spec.source_paths (head_entries ++ new_entries) = pre ++ p :: post ->
  (forall q, In q pre ->
             exists d, Git.git_diff (repo self) [lit "--cached"; q] = Return d) ->
  Git.git_diff (repo self) [lit "--cached"; p] = Raise e ->
  get_staged_changes self
  = (Raise e,
     EvIndexDiff (Some (lit "HEAD")) :: EvIndexDiff None
     :: map Cases.cached_diff_call (pre ++ [p]))
  /\ generate_commit_message self max_tokens
     = (Raise e,
        EvIndexDiff (Some (lit "HEAD")) :: EvIndexDiff None
        :: map Cases.cached_diff_call (pre ++ [p])).
Proof.
  intros Hh Hn Hs Hpre He.
  assert (Hg : get_staged_changes self
               = (Raise e,
                  EvIndexDiff (Some (lit "HEAD")) :: EvIndexDiff None
                  :: map Cases.cached_diff_call (pre ++ [p]))).
  { unfold get_staged_changes. rewrite Hh, Hn. unfold call, bind.
    rewrite (loop_raises self e p post _ [] pre Hs Hpre He). reflexivity. }
  split; [exact Hg|].
  unfold generate_commit_message. rewrite Hg. reflexivity.
Qed.

Lemma cached_diff_failure_witness :
  generate_commit_message
    {| repo := Cases.repo_unreadable (lit "b.py")
                 [Examples.entry (lit "a.py"); Examples.entry (lit "b.py");
                  Examples.entry (lit "c.py")];
       model := Examples.answer (lit "unused") |} 300
  = (Raise Cases.command_error,
     [EvIndexDiff (Some (lit "HEAD")); EvIndexDiff None;
      EvGitDiff [lit "--cached"; lit "a.py"];
      EvGitDiff [lit "--cached"; lit "b.py"]]).
Proof.
  destruct (cached_diff_failure
              {| repo := Cases.repo_unreadable (lit "b.py")
                           [Examples.entry (lit "a.py"); Examples.entry (lit "b.py");
                            Examples.entry (lit "c.py")];
                 model := Examples.answer (lit "unused") |} 300
              [Examples.entry (lit "a.py"); Examples.entry (lit "b.py");
               Examples.entry (lit "c.py")] []
              [lit "a.py"] [lit "c.py"] (lit "b.py") Cases.command_error
              eq_refl eq_refl eq_refl) as [_ Hm].
  - intros q [<-|[]]. exists Examples.five_line_diff. reflexivity.
  - reflexivity.
  - exact Hm.
Defined.

(** X6: when the query of the index against HEAD fails, as in a repository
    without a commit, [get_staged_changes] raises that failure after this
    one call, and [generate_commit_message] raises it too: the failure is
    not turned into a message and the backend is not called. *)
Theorem index_query_failure (self : DiffAnalyzer) (max_tokens : Z)
    (e : Exception) :
  Git.index_diff (repo self) (Some (lit "HEAD")) = Raise e ->
  get_staged_changes self = (Raise e, [EvIndexDiff (Some (lit "HEAD"))])
  /\ generate_commit_message self max_tokens
     = (Raise e, [EvIndexDiff (Some (lit "HEAD"))]).
Proof.
  intros Hh.
  assert (Hg : get_staged_changes self
               = (Raise e, [EvIndexDiff (Some (lit "HEAD"))])).
  { unfold get_staged_changes. rewrite Hh. reflexivity. }
  split; [exact Hg|].
  unfold generate_commit_message. rewrite Hg. reflexivity.
Qed.

Lemma index_query_failure_witness :
  generate_commit_message
    {| repo := Cases.repo_without_head; model := Examples.answer (lit "unused") |}
    300
  = (Raise Cases.bad_revision, [EvIndexDiff (Some (lit "HEAD"))]).
Proof.
  apply (index_query_failure
           {| repo := Cases.repo_without_head;
              model := Examples.answer (lit "unused") |} 300 Cases.bad_revision).
  reflexivity.
Defined.

(** X7: when the backend answers but the text of the answer cannot be
    read, [generate_commit_message] returns "Error generating commit
    message: " followed by the description of that failure. *)
Theorem unreadable_answer_is_reported (self : DiffAnalyzer) (max_tokens : Z)
    (changes : dict) (response : Genai.Response) (e : Exception) :
  outcome (get_staged_changes self) = Return changes -> changes <> [] ->
  Genai.generate_content (model self)
    (build_prompt (_prepare_diff_summary changes)) (generation_config max_tokens)
    = Return response ->
  Genai.text response = Raise e ->
  outcome (generate_commit_message self max_tokens)
  = Return (lit "Error generating commit message: " ++ exc_str e).
Proof.
  intros Hg Hne Hr Ht.
  rewrite (generate_outcome _ max_tokens _ Hg Hne), Hr, Ht. reflexivity.
Qed.

Lemma unreadable_answer_is_reported_witness :
  outcome (generate_commit_message
             (Examples.analyzer [Examples.entry (lit "src/a.py")] Cases.blocked)
             300)
  = Return (lit "Error generating commit message: response has no valid part").
Proof.
  apply (unreadable_answer_is_reported
           (Examples.analyzer [Examples.entry (lit "src/a.py")] Cases.blocked) 300
           [(lit "src/a.py", Examples.five_line_diff)]
           {| Genai.text := Raise Cases.blocked_answer |} Cases.blocked_answer).
  - reflexivity.
  - discriminate.
  - reflexivity.
  - reflexivity.
Defined.

(** ** The summarizer: what a block holds *)

Lemma changed_split (l : list str) :
  length (filter Cases.changed l)
  = length (filter (Spec.first_char_is 43%N) l)
    + length (filter (Spec.first_char_is 45%N) l).
Proof.
  induction l as [|x l IH]; [reflexivity|].
  cbn [filter]. unfold Cases.changed at 1.
  destruct x as [|c x]; cbn [Spec.first_char_is orb]; [exact IH|].
  destruct (c =? 43)%N eqn:E43.
  - apply N.eqb_eq in E43. subst c. cbn [orb N.eqb Pos.eqb length]. rewrite IH. reflexivity.
  - destruct (c =? 45)%N; cbn [orb length]; rewrite IH; lia.
Qed.

Lemma block_shape (path diff : str) :
  Spec.block (path, diff)
  = lit "File: " ++ Pathlib.name path
    ++ match filter Cases.changed (split_char 10%N diff) with
       | [] => []
       | _ :: _ =>
           lit " ("
           ++ of_nat (length (filter (Spec.first_char_is 43%N) (split_char 10%N diff)))
           ++ lit " added, "
           ++ of_nat (length (filter (Spec.first_char_is 45%N) (split_char 10%N diff)))
           ++ lit " removed)" ++ LF ++ lit "Changes:" ++ LF
           ++ join LF (firstn 3 (filter Cases.changed (split_char 10%N diff)))
       end.
Proof.
  unfold Spec.block, Spec.render, Spec.digest_of. simpl fst. simpl snd.
  cbn [Spec.filename Spec.addedLineCount Spec.removedLineCount Spec.sampleLines].
  pose proof (changed_split (split_char 10%N diff)) as Hlen.
  change (fun l : str => Spec.first_char_is 43%N l || Spec.first_char_is 45%N l)
    with Cases.changed.
  set (a := length (filter (Spec.first_char_is 43%N) (split_char 10%N diff))) in *.
  set (r := length (filter (Spec.first_char_is 45%N) (split_char 10%N diff))) in *.
  destruct (filter Cases.changed (split_char 10%N diff)) as [|c cs].
  - simpl in Hlen. assert (a = 0) by lia. assert (r = 0) by lia.
    replace a with 0 by lia. replace r with 0 by lia. reflexivity.
  - simpl in Hlen.
    assert (E : (a =? 0) && (r =? 0) = false).
    { destruct a; [destruct r; [lia|reflexivity]|reflexivity]. }
    rewrite E. cbn [firstn]. rewrite <- !app_assoc. reflexivity.
Qed.

(** X8: the block of a file carries the counts exactly when it carries
    sample lines: a diff without a line starting with + or - gives the bare
    header "File: <name>", any other diff gives the header with both counts
    followed by "Changes:" and the first three changed lines; the two counts
    add up to the number of changed lines. *)
Theorem summary_of_one_file (path diff : str) :
  let lines := split_char 10%N diff in
  let added := length (filter (Spec.first_char_is 43%N) lines) in
  let removed := length (filter (Spec.first_char_is 45%N) lines) in
  _prepare_diff_summary [(path, diff)]
  = lit "File: " ++ Pathlib.name path
    ++ match filter Cases.changed lines with
       | [] => []
       | _ :: _ =>
           lit " (" ++ of_nat added ++ lit " added, " ++ of_nat removed
           ++ lit " removed)" ++ LF ++ lit "Changes:" ++ LF
           ++ join LF (firstn 3 (filter Cases.changed lines))
       end
  /\ added + removed = length (filter Cases.changed lines).
Proof.
  intros lines added removed. split.
  - rewrite prepare_diff_summary_blocks. apply block_shape.
  - symmetry. apply changed_split.
Qed.

Lemma startswith_prefix (a b : str) : startswith a (a ++ b) = true.
Proof. apply startswith_app. Qed.

(** X9: the digest of a mapping that is not empty begins with "File: "
    and the last segment of the first path: for staged changes the prompt
    never carries an empty digest. *)
Theorem digest_begins_with_first_file (path diff : str) (rest : dict) :
  startswith (lit "File: " ++ Pathlib.name path)
    (_prepare_diff_summary ((path, diff) :: rest)) = true.
Proof.
  rewrite prepare_diff_summary_blocks. cbn [map]. rewrite join_cons, block_shape.
  destruct (map Spec.block rest); rewrite ?app_assoc;
    rewrite <- ?(app_assoc (lit "File: ")); rewrite <- ?app_assoc;
    rewrite (app_assoc (lit "File: ") (Pathlib.name path)); apply startswith_prefix.
Qed.

(** ** The summarizer: how long the digest can get *)

Lemma newlines_app (a b : str) :
  Cases.newlines (a ++ b) = Cases.newlines a + Cases.newlines b.
Proof. apply count_occ_app. Qed.

Lemma split_char_pieces (c : char) : forall (s p : str),
  In p (split_char c s) -> count_occ N.eq_dec p c = 0.
Proof.
  induction s as [|x s IH]; intros p Hin; simpl in Hin.
  - destruct Hin as [<-|[]]. reflexivity.
  - destruct (x =? c)%N eqn:E.
    + destruct Hin as [<-|Hin]; [reflexivity|apply IH, Hin].
    + apply N.eqb_neq in E.
      destruct (split_char c s) as [|q qs] eqn:Hs.
      * destruct Hin as [<-|[]]. simpl.
        destruct (N.eq_dec x c); [contradiction|reflexivity].
      * destruct Hin as [<-|Hin].
        -- simpl. destruct (N.eq_dec x c); [contradiction|].
           apply IH. left. reflexivity.
        -- apply IH. right. exact Hin.
Qed.

Lemma of_uint_one_line (u : Decimal.uint) : Cases.newlines (of_uint u) = 0.
Proof.
  unfold Cases.newlines.
  induction u as [|u IH|u IH|u IH|u IH|u IH|u IH|u IH|u IH|u IH|u IH];
    simpl; try exact IH; reflexivity.
Qed.

Lemma join_newlines : forall ls : list str,
  (forall l, In l ls -> Cases.newlines l = 0) ->
  Cases.newlines (join LF ls) = pred (length ls).
Proof.
  induction ls as [|l ls IH]; intros H; [reflexivity|].
  rewrite join_cons. destruct ls as [|l' ls'].
  - apply H. left. reflexivity.
  - rewrite !newlines_app, (H l (or_introl eq_refl)), IH.
    + reflexivity.
    + intros x Hx. apply H. right. exact Hx.
Qed.

Lemma firstn_subset {A} (x : A) : forall n (l : list A),
  In x (firstn n l) -> In x l.
Proof.
  induction n as [|n IH]; intros l H; [contradiction|].
  destruct l as [|y l]; [contradiction|].
  destruct H as [->|H]; [left; reflexivity|right; apply IH, H].
Qed.

Lemma block_newlines (path diff : str) :
  Cases.newlines (Spec.block (path, diff))
  <= Cases.newlines (Pathlib.name path) + 4.
Proof.
  rewrite block_shape.
  set (ch := filter Cases.changed (split_char 10%N diff)).
  assert (Hch : forall l, In l (firstn 3 ch) -> Cases.newlines l = 0).
  { intros l Hl. apply (split_char_pieces 10%N diff).
    apply firstn_subset in Hl. unfold ch in Hl. apply filter_In in Hl. apply Hl. }
  assert (Hlen : length (firstn 3 ch) <= 3) by apply firstn_le_length.
  rewrite !newlines_app.
  destruct ch as [|c cs] eqn:E.
  - change (Cases.newlines []) with 0.
    change (Cases.newlines (lit "File: ")) with 0. lia.
  - rewrite !newlines_app, (join_newlines _ Hch).
    unfold of_nat. rewrite !of_uint_one_line.
    change (Cases.newlines (lit "File: ")) with 0.
    change (Cases.newlines (lit " (")) with 0.
    change (Cases.newlines (lit " added, ")) with 0.
    change (Cases.newlines (lit " removed)")) with 0.
    change (Cases.newlines (lit "Changes:")) with 0.
    change (Cases.newlines LF) with 1. lia.
Qed.

(** X10: the number of lines of the digest does not grow with the diffs:
    apart from the line breaks inside the file names, the digest holds at
    most six line breaks for each file.  The sampled lines themselves are
    copied whole, whatever their length. *)
Theorem digest_line_bound (staged_changes : dict) :
  Cases.newlines (_prepare_diff_summary staged_changes)
  <= 6 * length staged_changes
     + list_sum (map (fun item => Cases.newlines (Pathlib.name (fst item)))
                     staged_changes).
Proof.
  rewrite prepare_diff_summary_blocks.
  induction staged_changes as [|[path diff] rest IH]; [reflexivity|].
  cbn [map]. rewrite join_cons.
  pose proof (block_newlines path diff) as Hb.
  destruct rest as [|item rest'].
  - cbn [map list_sum fold_right length fst]. lia.
  - cbn [map] in *. rewrite !newlines_app. change (Cases.newlines blank_line) with 2.
    cbn [list_sum fold_right length fst] in *. lia.
Qed.

(** ** The summarizer on a unified diff *)

Lemma filter_none {A} (f : A -> bool) (l : list A) :
  forallb (fun x => negb (f x)) l = true -> filter f l = [].
Proof.
  induction l as [|x l IH]; [reflexivity|]. simpl. intros H.
  apply andb_prop in H. destruct H as [Hx Hl].
  apply negb_true_iff in Hx. rewrite Hx. apply IH, Hl.
Qed.

(** X11: when the first two changed lines of a diff are the file header of
    a unified diff, a line starting with - and a line starting with +, the
    digest counts them as a removal and an addition and shows them as
    changes: only one line of the change itself is left among the three. *)
Theorem header_lines_are_sampled (path diff : str) (pre rest : list str)
    (old new : str) :
  split_char 10%N diff = pre ++ old :: new :: rest ->
  forallb (fun l => negb (Cases.changed l)) pre = true ->
  Spec.first_char_is 45%N old = true ->
  Spec.first_char_is 43%N new = true ->
  _prepare_diff_summary [(path, diff)]
  = lit "File: " ++ Pathlib.name path ++ lit " ("
    ++ of_nat (S (length (filter (Spec.first_char_is 43%N) rest)))
    ++ lit " added, "
    ++ of_nat (S (length (filter (Spec.first_char_is 45%N) rest)))
    ++ lit " removed)" ++ LF ++ lit "Changes:" ++ LF ++ old ++ LF ++ new
    ++ match filter Cases.changed rest with
       | [] => []
       | first :: _ => LF ++ first
       end.
Proof.
  intros Hs Hpre Hold Hnew.
  rewrite prepare_diff_summary_blocks. cbn [map join]. rewrite block_shape, Hs.
  assert (Hp43 : filter (Spec.first_char_is 43%N) pre = []).
  { apply filter_none. apply forallb_forall. intros l Hl.
    rewrite forallb_forall in Hpre. specialize (Hpre l Hl).
    unfold Cases.changed in Hpre. apply negb_true_iff in Hpre.
    apply orb_false_elim in Hpre. apply negb_true_iff, Hpre. }
  assert (Hp45 : filter (Spec.first_char_is 45%N) pre = []).
  { apply filter_none. apply forallb_forall. intros l Hl.
    rewrite forallb_forall in Hpre. specialize (Hpre l Hl).
    unfold Cases.changed in Hpre. apply negb_true_iff in Hpre.
    apply orb_false_elim in Hpre. apply negb_true_iff, Hpre. }
  assert (Hold43 : Spec.first_char_is 43%N old = false).
  { destruct old as [|c old]; [discriminate Hold|]. simpl in *.
    apply N.eqb_eq in Hold. subst c. reflexivity. }
  assert (Hnew45 : Spec.first_char_is 45%N new = false).
  { destruct new as [|c new]; [discriminate Hnew|]. simpl in *.
    apply N.eqb_eq in Hnew. subst c. reflexivity. }
  assert (Hcold : Cases.changed old = true)
    by (unfold Cases.changed; rewrite Hold; apply orb_true_r).
  assert (Hcnew : Cases.changed new = true)
    by (unfold Cases.changed; rewrite Hnew; reflexivity).
  rewrite !filter_app, (filter_none _ _ Hpre), Hp43, Hp45.
  cbn [filter app]. rewrite Hold, Hnew, Hold43, Hnew45, Hcold, Hcnew.
  cbn [length].
  destruct (filter Cases.changed rest) as [|c cs];
    cbn [firstn]; rewrite ?join_cons; rewrite <- ?app_assoc, ?app_nil_r;
    reflexivity.
Qed.

Lemma header_lines_are_sampled_witness :
  _prepare_diff_summary [(lit "src/a.py", join LF Cases.unified_diff)]
  = lit "File: a.py (2 added, 2 removed)
Changes:
--- a/src/a.py
+++ b/src/a.py
-x = 1".
Proof.
  rewrite (header_lines_are_sampled (lit "src/a.py") (join LF Cases.unified_diff)
             [lit "diff --git a/src/a.py b/src/a.py";
              lit "index 1111111..2222222 100644"]
             [lit "@@ -1,2 +1,2 @@"; lit " import os"; lit "-x = 1"; lit "+x = 2"]
             (lit "--- a/src/a.py") (lit "+++ b/src/a.py")
             eq_refl eq_refl eq_refl eq_refl).
  reflexivity.
Defined.

(** ** File names and directories *)

Lemma plain_path_segments (segs : list str) :
  Cases.plain_path segs = true ->
  segs <> [] /\ forallb Spec.plain_segment segs = true
  /\ exists (a : char) (r : str),
       join [Pathlib.slash] segs = a :: r /\ (Pathlib.slash =? a)%N = false.
Proof.
  intros H. destruct segs as [|s segs]; [discriminate H|].
  split; [discriminate|]. split; [exact H|].
  cbn [Cases.plain_path forallb] in H. apply andb_prop in H. destruct H as [Hs _].
  unfold Spec.plain_segment in Hs. apply andb_prop in Hs. destruct Hs as [Hs Hns].
  apply andb_prop in Hs. destruct Hs as [Ht _]. apply negb_true_iff in Hns.
  destruct s as [|a s]; [discriminate Ht|]. cbn [existsb] in Hns.
  apply orb_false_elim in Hns. destruct Hns as [Ha _].
  rewrite join_cons. destruct segs; eexists _, _; split; try reflexivity; exact Ha.
Qed.

Lemma plain_segments_survive (segs : list str) :
  Cases.plain_path segs = true ->
  filter (fun x => truthy x && negb (Str.eqb x (lit ".")))
         (split_char Pathlib.slash (join [Pathlib.slash] segs)) = segs.
Proof.
  intros H. destruct (plain_path_segments segs H) as (Hne & Hall & _).
  assert (Hin : forall x, In x segs -> Spec.plain_segment x = true)
    by (apply forallb_forall; exact Hall).
  rewrite split_char_join; [|exact Hne|].
  - apply forallb_filter_id. apply forallb_forall. intros x Hx.
    specialize (Hin x Hx). unfold Spec.plain_segment in Hin.
    apply andb_prop in Hin. apply Hin.
  - apply forallb_forall. intros x Hx. specialize (Hin x Hx).
    unfold Spec.plain_segment in Hin. apply andb_prop in Hin. apply Hin.
Qed.

Lemma tail_of_relative (segs : list str) :
  Cases.plain_path segs = true ->
  Pathlib.tail_of (join [Pathlib.slash] segs) = segs.
Proof.
  intros H. destruct (plain_path_segments segs H) as (_ & _ & a & r & Hj & Ha).
  unfold Pathlib.tail_of. rewrite Hj, (splitroot_relative a r Ha), <- Hj.
  apply plain_segments_survive, H.
Qed.

Lemma splitroot_rooted (segs : list str) :
  Cases.plain_path segs = true ->
  Pathlib.splitroot (Cases.rooted segs)
  = ([Pathlib.slash], join [Pathlib.slash] segs).
Proof.
  intros H. destruct (plain_path_segments segs H) as (_ & _ & a & r & Hj & Ha).
  unfold Cases.rooted, Pathlib.splitroot. rewrite Hj. cbn [firstn skipn].
  rewrite eqb_refl.
  assert (E : Str.eqb [a] [Pathlib.slash] = false).
  { apply eqb_false_iff. intros [= ->]. rewrite N.eqb_refl in Ha. discriminate Ha. }
  rewrite E. reflexivity.
Qed.

Lemma tail_of_rooted (segs : list str) :
  Cases.plain_path segs = true ->
  Pathlib.tail_of (Cases.rooted segs) = segs.
Proof.
  intros H. unfold Pathlib.tail_of. rewrite (splitroot_rooted segs H).
  apply plain_segments_survive, H.
Qed.

(** X12: the digest names a file by the last segment of its path, relative
    or absolute, and by nothing else of the path: two files of the same
    name in different directories, with the same diff, give the same
    digest. *)
Theorem digest_drops_directories (segs segs' : list str) (diff : str) :
  Cases.plain_path segs = true ->
  Cases.plain_path segs' = true ->
  Pathlib.name (join [Pathlib.slash] segs) = last segs []
  /\ Pathlib.name (Cases.rooted segs) = last segs []
  /\ (last segs [] = last segs' [] ->
      _prepare_diff_summary [(join [Pathlib.slash] segs, diff)]
      = _prepare_diff_summary [(join [Pathlib.slash] segs', diff)]).
Proof.
  intros H H'.
  assert (Hn : Pathlib.name (join [Pathlib.slash] segs) = last segs [])
    by (unfold Pathlib.name; rewrite (tail_of_relative segs H); reflexivity).
  assert (Hn' : Pathlib.name (join [Pathlib.slash] segs') = last segs' [])
    by (unfold Pathlib.name; rewrite (tail_of_relative segs' H'); reflexivity).
  split; [exact Hn|]. split.
  - unfold Pathlib.name. rewrite (tail_of_rooted segs H). reflexivity.
  - intros Hlast. rewrite !prepare_diff_summary_blocks. cbn [map join].
    rewrite !block_shape, Hn, Hn', Hlast. reflexivity.
Qed.

Lemma digest_drops_directories_witness :
  _prepare_diff_summary [(lit "src/util/io.py", Examples.five_line_diff)]
  = _prepare_diff_summary [(lit "tests/io.py", Examples.five_line_diff)].
Proof.
  apply (proj2 (proj2 (digest_drops_directories
           [lit "src"; lit "util"; lit "io.py"] [lit "tests"; lit "io.py"]
           Examples.five_line_diff eq_refl eq_refl))).
  reflexivity.
Defined.

(** ** The scope of particular change sets *)

Lemma determine_scope_top (changed_files : list str) :
  changed_files <> [] ->
  exists top : str * nat,
    _determine_scope changed_files = Return (fst top)
    /\ In (fst top) (map Spec.scope_label changed_files)
    /\ forall d, Spec.count d (map Spec.scope_label changed_files)
                 <= Spec.count (fst top) (map Spec.scope_label changed_files).
Proof.
  intros Hne. destruct changed_files as [|f fs]; [contradiction|].
  unfold _determine_scope. cbv zeta.
  rewrite (map_ext _ _ scope_label_eq (f :: fs)).
  change (@map str (list char)) with (@map str str).
  destruct (most_common_first (map Spec.scope_label (f :: fs)))
    as (top & Htop & Hin & Hmax & _); [discriminate|].
  rewrite Htop. exists top. auto.
Qed.

Lemma determine_scope_uniform (changed_files : list str) (label : str) :
  changed_files <> [] ->
  (forall f, In f changed_files -> Spec.scope_label f = label) ->
  _determine_scope changed_files = Return label.
Proof.
  intros Hne Hall.
  destruct (determine_scope_top changed_files Hne) as (top & Hr & Hin & _).
  rewrite Hr. f_equal. apply in_map_iff in Hin.
  destruct Hin as (f & Hf & Hinf). rewrite <- Hf. apply Hall, Hinf.
Qed.

(** X13: when every path is one slash followed by plain segments joined
    by slashes, the scope is the root "/": such a path, even a file
    directly under the root, contributes "/" and not "misc". *)
Theorem scope_of_absolute_paths (paths : list (list str)) :
  paths <> [] ->
  forallb Cases.plain_path paths = true ->
  _determine_scope (map Cases.rooted paths) = Return (lit "/").
Proof.
  intros Hne Hall. apply determine_scope_uniform.
  - destruct paths; [contradiction|discriminate].
  - intros f Hf. apply in_map_iff in Hf. destruct Hf as (segs & <- & Hin).
    rewrite forallb_forall in Hall. specialize (Hall segs Hin).
    unfold Spec.scope_label, Pathlib.parts.
    rewrite (tail_of_rooted segs Hall), (splitroot_rooted segs Hall).
    destruct segs as [|s segs]; [discriminate Hall|]. reflexivity.
Qed.

Lemma scope_of_absolute_paths_witness :
  _determine_scope [lit "/srv/app/main.py"; lit "/readme.md"] = Return (lit "/").
Proof.
  apply (scope_of_absolute_paths
           [[lit "srv"; lit "app"; lit "main.py"]; [lit "readme.md"]]).
  - discriminate.
  - reflexivity.
Defined.

(** X14: when no changed file lies in a directory, every path being one
    plain segment, the scope is "misc". *)
Theorem scope_of_top_level_files (changed_files : list str) :
  forallb Spec.plain_segment changed_files = true ->
  _determine_scope changed_files = Return (lit "misc").
Proof.
  intros Hall. destruct changed_files as [|f fs] eqn:E; [reflexivity|].
  rewrite <- E in *. apply determine_scope_uniform.
  - rewrite E. discriminate.
  - intros x Hx. rewrite forallb_forall in Hall. specialize (Hall x Hx).
    unfold Spec.scope_label.
    assert (Hp : Pathlib.parts x = [x]).
    { apply (parts_of_plain_segments [x]); [discriminate|].
      cbn [forallb]. rewrite Hall. reflexivity. }
    rewrite Hp. reflexivity.
Qed.

Lemma scope_of_top_level_files_witness :
  _determine_scope [lit "readme.md"; lit "setup.py"; lit "LICENSE"]
  = Return (lit "misc").
Proof. apply scope_of_top_level_files. reflexivity. Defined.

Lemma count_two (a b : str) : forall l : list str,
  a <> b -> Spec.count a l + Spec.count b l <= length l.
Proof.
  unfold Spec.count. induction l as [|x l IH]; intros Hab; simpl; [lia|].
  specialize (IH Hab).
  destruct (Str.eq_dec x a) as [Ha|Ha]; destruct (Str.eq_dec x b) as [Hb|Hb];
    try lia. congruence.
Qed.

(** X15: a label carried by more than half of the paths is the scope,
    wherever those paths stand in the list. *)
Theorem scope_of_a_majority (changed_files : list str) (label : str) :
  length changed_files
    < 2 * Spec.count label (map Spec.scope_label changed_files) ->
  _determine_scope changed_files = Return label.
Proof.
  intros Hmaj.
  assert (Hne : changed_files <> []).
  { intros ->. simpl in Hmaj. lia. }
  destruct (determine_scope_top changed_files Hne) as (top & Hr & _ & Hmax).
  rewrite Hr. f_equal.
  destruct (Str.eq_dec (fst top) label) as [E|Hdiff]; [exact E|].
  pose proof (count_two (fst top) label (map Spec.scope_label changed_files) Hdiff)
    as Hsum.
  specialize (Hmax label). rewrite length_map in Hsum. lia.
Qed.

Lemma scope_of_a_majority_witness :
  _determine_scope [lit "docs/x.md"; lit "src/a.py"; lit "src/b.py"]
  = Return (lit "src").
Proof.
  apply scope_of_a_majority. vm_compute. lia.
Defined.

(** ** The formatter on particular answers *)

Lemma lstrip_blank (s : str) : Spec.has_nonspace s = false -> lstrip s = [].
Proof.
  induction s as [|c s IH]; [reflexivity|]. simpl. intros H.
  apply orb_false_elim in H. destruct H as [Hc Hs].
  apply negb_false_iff in Hc. rewrite Hc. apply IH, Hs.
Qed.

Lemma strip_blank (s : str) : Spec.has_nonspace s = false -> strip s = [].
Proof. intros H. unfold strip. rewrite (lstrip_blank s H). reflexivity. Qed.

(** X16: when the backend answers with whitespace only, or with nothing,
    [generate_commit_message] returns the empty string: neither an error
    message nor the sentinel. *)
Theorem blank_answer_gives_empty_message (self : DiffAnalyzer) (max_tokens : Z)
    (changes : dict) (response : Genai.Response) (response_text : str) :
  outcome (get_staged_changes self) = Return changes -> changes <> [] ->
  Genai.generate_content (model self)
    (build_prompt (_prepare_diff_summary changes)) (generation_config max_tokens)
    = Return response ->
  Genai.text response = Return response_text ->
  Spec.has_nonspace response_text = false ->
  outcome (generate_commit_message self max_tokens) = Return [].
Proof.
  intros Hg Hne Hr Ht Hblank.
  rewrite (generate_outcome _ max_tokens _ Hg Hne), Hr, Ht.
  unfold format_response. rewrite (strip_blank _ Hblank). reflexivity.
Qed.

Lemma blank_answer_gives_empty_message_witness :
  outcome (generate_commit_message
             (Examples.analyzer [Examples.entry (lit "src/a.py")]
                (Examples.answer (lit "

  "))) 300)
  = Return [].
Proof.
  apply (blank_answer_gives_empty_message
           (Examples.analyzer [Examples.entry (lit "src/a.py")]
              (Examples.answer (lit "

  "))) 300
           [(lit "src/a.py", Examples.five_line_diff)]
           {| Genai.text := Return (lit "

  ") |}
           (lit "

  ")).
  - reflexivity.
  - discriminate.
  - reflexivity.
  - reflexivity.
  - reflexivity.
Defined.

Lemma has_nonspace_app (a b : str) :
  Spec.has_nonspace (a ++ b) = Spec.has_nonspace a || Spec.has_nonspace b.
Proof. apply existsb_app. Qed.

Lemma strip_length (s : str) : length (strip s) <= length s.
Proof.
  destruct (strip_middle s) as (a & w & E).
  apply (f_equal (@length _)) in E. rewrite !length_app in E. lia.
Qed.

Lemma trims_refl (s : str) : Cases.trims s s.
Proof. induction s as [|c s IH]; constructor; exact IH. Qed.

Lemma trims_blank (w : str) : forallb isspace w = true -> Cases.trims w [].
Proof.
  induction w as [|c w IH]; intros H; [constructor|].
  simpl in H. apply andb_prop in H. destruct H as [Hc Hw].
  apply Cases.trims_drop; [exact Hc|apply IH, Hw].
Qed.

Lemma trims_app (a a' b b' : str) :
  Cases.trims a a' -> Cases.trims b b' -> Cases.trims (a ++ b) (a' ++ b').
Proof.
  intros Ha Hb. induction Ha as [|c s t Hst IH|c s t Hc Hst IH]; simpl.
  - exact Hb.
  - apply Cases.trims_keep, IH.
  - apply Cases.trims_drop; [exact Hc|exact IH].
Qed.

Lemma trims_trans (a b : str) :
  Cases.trims a b -> forall c, Cases.trims b c -> Cases.trims a c.
Proof.
  induction 1 as [|x s t Hst IH|x s t Hx Hst IH]; intros c Hbc.
  - exact Hbc.
  - inversion Hbc as [|y s' t' Hst'|y s' t' Hy Hst']; subst.
    + apply Cases.trims_keep, IH, Hst'.
    + apply Cases.trims_drop; [exact Hy|apply IH, Hst'].
  - apply Cases.trims_drop; [exact Hx|apply IH, Hbc].
Qed.

Lemma lstrip_drops_blanks (s : str) :
  exists a, s = a ++ lstrip s /\ forallb isspace a = true.
Proof.
  induction s as [|c s (a & Ha & Hw)]; simpl.
  - exists []. split; reflexivity.
  - destruct (isspace c) eqn:E.
    + exists (c :: a). simpl. rewrite E, Hw. split; [f_equal; exact Ha|reflexivity].
    + exists []. split; reflexivity.
Qed.

Lemma forallb_rev {A} (f : A -> bool) (l : list A) :
  forallb f l = true -> forallb f (rev l) = true.
Proof.
  intros H. apply forallb_forall. intros x Hx. apply in_rev in Hx.
  rewrite forallb_forall in H. apply H, Hx.
Qed.

Lemma rstrip_drops_blanks (s : str) :
  exists w, s = rstrip s ++ w /\ forallb isspace w = true.
Proof.
  destruct (lstrip_drops_blanks (rev s)) as (a & Ha & Hw).
  exists (rev a). split; [|apply forallb_rev, Hw]. unfold rstrip.
  rewrite <- rev_app_distr, <- Ha. symmetry. apply rev_involutive.
Qed.

Lemma strip_trims (s : str) : Cases.trims s (strip s).
Proof.
  destruct (lstrip_drops_blanks s) as (a & Ha & Hwa).
  destruct (rstrip_drops_blanks (lstrip s)) as (w & Hw & Hww).
  unfold strip. rewrite Ha at 1. rewrite Hw at 1.
  rewrite <- (app_nil_l (rstrip (lstrip s))) at 2.
  apply trims_app; [apply trims_blank, Hwa|].
  rewrite <- (app_nil_r (rstrip (lstrip s))) at 2.
  apply trims_app; [apply trims_refl|apply trims_blank, Hww].
Qed.

(** X17: the formatter only takes whitespace away: the message it returns
    is the answer with some whitespace characters removed and nothing else
    changed; it neither begins nor ends with whitespace, is no longer than
    the answer, and holds a character other than whitespace exactly when
    the answer does. *)
Theorem formatted_message_is_trimmed (raw : str) :
  exists out,
    format_response raw = Return out
    /\ Cases.trims raw out
    /\ strip out = out
    /\ length out <= length raw
    /\ Spec.has_nonspace out = Spec.has_nonspace raw.
Proof.
  pose proof (strip_length raw) as Hlen.
  destruct (partition_first blank_line (strip raw)) as [[t b]|] eqn:P.
  - exists (strip t ++ blank_line ++ strip b).
    split; [apply (format_response_parts _ _ _ P)|].
    destruct (partition_first_some _ _ _ _ P) as [Hs _].
    destruct (title_and_body_clean (strip raw) t b
                (strip_starts_clean raw) (strip_ends_clean raw) Hs)
      as (Hst & Hnt & Heb & Hnb).
    split; [|split; [|split]].
    + apply (trims_trans raw (strip raw) (strip_trims raw)). rewrite Hs.
      apply trims_app; [apply strip_trims|].
      apply trims_app; [apply trims_refl|apply strip_trims].
    + apply strip_clean.
      * apply starts_clean_app; [apply strip_nonempty, Hnt|apply strip_starts_clean].
      * rewrite app_assoc.
        apply ends_clean_app; [apply strip_nonempty, Hnb|apply strip_ends_clean].
    + pose proof (strip_length t). pose proof (strip_length b).
      apply (f_equal (@length _)) in Hs. rewrite !length_app in *. lia.
    + rewrite has_nonspace_app, strip_keeps_nonspace, Hnt.
      rewrite <- (strip_keeps_nonspace raw), Hs, (has_nonspace_app t), Hnt.
      reflexivity.
  - exists (strip raw). split; [apply (format_response_whole _ P)|].
    split; [apply strip_trims|].
    split; [apply strip_idempotent|]. split; [exact Hlen|].
    apply strip_keeps_nonspace.
Qed.

Lemma lstrip_newlines (n : nat) (s : str) : lstrip (repeat 10%N n ++ s) = lstrip s.
Proof. induction n as [|n IH]; [reflexivity|]. simpl. exact IH. Qed.

Lemma no_blank_line_before (T X : str) :
  Spec.no_occurrence blank_line T = true -> Spec.ends_clean T ->
  forall j, j < length T ->
    Spec.occurs_at blank_line (T ++ blank_line ++ X) j = false.
Proof.
  intros Hno He j Hj. unfold Spec.no_occurrence in Hno.
  apply negb_true_iff in Hno.
  destruct (Spec.occurs_at blank_line (T ++ blank_line ++ X) j) eqn:E; [|reflexivity].
  apply occurs_at_blank_line in E. destruct E as [E0 E1].
  rewrite nth_error_app1 in E0 by exact Hj.
  destruct (Nat.eq_dec (S j) (length T)) as [Hlast|Hin].
  - exfalso. apply (ends_clean_last _ He). rewrite <- Hlast. exact E0.
  - rewrite nth_error_app1 in E1 by lia.
    rewrite <- (proj1 (occurs_before_false blank_line T _) Hno j) by lia.
    symmetry. apply occurs_at_blank_line. auto.
Qed.

(** X18: a run of blank lines between the title and the body is reduced
    to one blank line: for a clean title without blank line and a clean
    body, any number of further line breaks after the separator
    disappears. *)
Theorem blank_lines_collapse (T B : str) (n : nat) :
  T <> [] -> B <> [] ->
  Spec.starts_clean T -> Spec.ends_clean T ->
  Spec.starts_clean B -> Spec.ends_clean B ->
  Spec.no_occurrence blank_line T = true ->
  format_response (T ++ blank_line ++ repeat 10%N n ++ B)
  = Return (T ++ blank_line ++ B).
Proof.
  intros HT HB HsT HeT HsB HeB Hno.
  assert (Hc : strip (T ++ blank_line ++ repeat 10%N n ++ B)
               = T ++ blank_line ++ repeat 10%N n ++ B).
  { apply strip_clean.
    - apply starts_clean_app; assumption.
    - rewrite !app_assoc. apply ends_clean_app; assumption. }
  rewrite (format_response_parts _ T (repeat 10%N n ++ B)).
  - rewrite (strip_clean _ HsT HeT). unfold strip at 1.
    rewrite lstrip_newlines, (lstrip_clean _ HsB), (rstrip_clean _ HeB).
    reflexivity.
  - rewrite Hc. apply partition_first_app.
    apply (no_blank_line_before T (repeat 10%N n ++ B) Hno HeT).
Qed.

Lemma blank_lines_collapse_witness :
  format_response (lit "Fix bug




Details.")
  = Return (lit "Fix bug

Details.").
Proof.
  apply (blank_lines_collapse (lit "Fix bug") (lit "Details.") 3);
    try discriminate; reflexivity.
Defined.

(** ** Entries whose cached diff is empty *)

Lemma dict_set_fresh (D : list str) (p : str) :
  dict_set (map (fun k => (k, @nil char)) D) p []
  = map (fun k => (k, @nil char))
        (if in_dec Str.eq_dec p D then D else D ++ [p]).
Proof.
  induction D as [|k D IH]; [reflexivity|]. cbn [map dict_set].
  destruct (Str.eqb k p) eqn:E.
  - apply eqb_true_iff in E. subst k.
    destruct (in_dec Str.eq_dec p (p :: D)) as [_|Hn]; [reflexivity|].
    exfalso. apply Hn. left. reflexivity.
  - apply eqb_false_iff in E. rewrite IH.
    destruct (in_dec Str.eq_dec p D) as [Hi|Hn];
      destruct (in_dec Str.eq_dec p (k :: D)) as [Hi'|Hn']; try reflexivity.
    + exfalso. apply Hn'. right. exact Hi.
    + exfalso. destruct Hi' as [Hk|Hi']; [congruence|contradiction].
Qed.

Lemma loop_of_empty_diffs (self : DiffAnalyzer) (entries : list Git.Diff) :
  forall seen,
  (forall p, In p (Spec.source_paths entries) ->
             Git.git_diff (repo self) [lit "--cached"; p] = Return []) ->
  outcome (for_each entries (map (fun k => (k, @nil char)) (Spec.dedup seen))
             (get_staged_changes_body self))
  = Return (map (fun k => (k, @nil char))
                (Spec.dedup (seen ++ Spec.source_paths entries))).
Proof.
  induction entries as [|e es IH]; intros seen Hc; simpl.
  - rewrite app_nil_r. reflexivity.
  - unfold get_staged_changes_body at 1. simpl in Hc.
    destruct (Git.a_path e) as [p|]; [destruct (truthy p)|].
    + rewrite (Hc p (or_introl eq_refl)).
      rewrite (outcome_bind_return _ _
                 (dict_set (map (fun k => (k, @nil char)) (Spec.dedup seen)) p []))
        by reflexivity.
      rewrite dict_set_fresh.
      assert (E : (if in_dec Str.eq_dec p (Spec.dedup seen)
                   then Spec.dedup seen else Spec.dedup seen ++ [p])
                  = Spec.dedup (seen ++ [p])).
      { rewrite dedup_snoc.
        destruct (in_dec Str.eq_dec p (Spec.dedup seen)) as [Hi|Hn];
          destruct (in_dec Str.eq_dec p seen) as [Hi'|Hn']; try reflexivity.
        - exfalso. apply Hn'. apply dedup_In. exact Hi.
        - exfalso. apply Hn. apply dedup_In. exact Hi'. }
      rewrite E, (IH (seen ++ [p])), <- app_assoc; [reflexivity|].
      intros q Hq. apply Hc. right. exact Hq.
    + rewrite bind_ret_l. apply IH, Hc.
    + rewrite bind_ret_l. apply IH, Hc.
Qed.

Lemma block_of_empty_diff (p : str) : Spec.block (p, []) = Cases.bare_header p.
Proof. rewrite block_shape. cbn. rewrite app_nil_r. reflexivity. Qed.

(** X19: entries whose cached diff is empty still count as staged
    changes: when some entry has a source path and every cached diff is
    the empty string, [generate_commit_message] does not stop at the
    sentinel; it calls the backend once, with a digest that holds nothing
    but the header "File: <name>" of each distinct path, and returns what
    that call gives: the formatted answer, or the error message. *)
Theorem empty_cached_diffs_reach_the_backend (self : DiffAnalyzer)
    (max_tokens : Z) (head_entries new_entries : list Git.Diff) :
  Git.index_diff (repo self) (Some (lit "HEAD")) = Return head_entries ->
  Git.index_diff (repo self) None = Return new_entries ->
  Spec.source_paths (head_entries ++ new_entries) <> [] ->
  (forall p, In p (Spec.source_paths (head_entries ++ new_entries)) ->
             Git.git_diff (repo self) [lit "--cached"; p] = Return []) ->
  let prompt :=
    build_prompt
      (join blank_line
         (map Cases.bare_header
              (Spec.dedup (Spec.source_paths (head_entries ++ new_entries))))) in
  filter is_generate (trace (generate_commit_message self max_tokens))
  = [EvGenerateContent prompt (generation_config max_tokens)]
  /\ outcome (generate_commit_message self max_tokens)
     = match Genai.generate_content (model self) prompt
               (generation_config max_tokens) with
       | Raise e => Return (lit "Error generating commit message: " ++ exc_str e)
       | Return response =>
           match Genai.text response with
           | Raise e =>
               Return (lit "Error generating commit message: " ++ exc_str e)
           | Return response_text =>
               match format_response response_text with
               | Raise e =>
                   Return (lit "Error generating commit message: " ++ exc_str e)
               | Return message => Return message
               end
           end
       end.
Proof.
  intros Hh Hn Hne Hc.
  set (paths := Spec.source_paths (head_entries ++ new_entries)) in *.
  assert (Hg : outcome (get_staged_changes self)
               = Return (map (fun k => (k, @nil char)) (Spec.dedup paths))).
  { unfold get_staged_changes. rewrite Hh, Hn.
    pose proof (loop_of_empty_diffs self (head_entries ++ new_entries) [] Hc) as Hl.
    cbn [Spec.dedup map app] in Hl. fold paths in Hl.
    unfold call, bind at 1 2.
    destruct (for_each _ _ _) as [r t]. exact Hl. }
  assert (Hm : map (fun k => (k, @nil char)) (Spec.dedup paths) <> []).
  { intros E. apply map_eq_nil in E. apply (proj1 (dedup_nil paths)) in E.
    contradiction. }
  assert (Hd : _prepare_diff_summary
                 (map (fun k => (k, @nil char)) (Spec.dedup paths))
               = join blank_line (map Cases.bare_header (Spec.dedup paths))).
  { rewrite prepare_diff_summary_blocks, map_map.
    rewrite (map_ext _ _ block_of_empty_diff). reflexivity. }
  intros prompt. split.
  - rewrite (generate_trace self max_tokens _ Hg Hm), filter_app.
    rewrite (quiet_filter _ (get_staged_changes_quiet self)), Hd. reflexivity.
  - rewrite (generate_outcome self max_tokens _ Hg Hm), Hd. reflexivity.
Qed.

Lemma empty_cached_diffs_reach_the_backend_witness :
  filter is_generate
    (trace (generate_commit_message
              {| repo := Cases.repo_unstaged
                           [Examples.entry (lit "src/a.py");
                            Examples.entry (lit "docs/c.md")];
                 model := Examples.answer (lit "Update files") |} 300))
  = [EvGenerateContent
       (build_prompt (lit "File: a.py

File: c.md"))
       (generation_config 300)]
  /\ outcome (generate_commit_message
                {| repo := Cases.repo_unstaged
                             [Examples.entry (lit "src/a.py");
                              Examples.entry (lit "docs/c.md")];
                   model := Examples.answer (lit "Update files") |} 300)
     = Return (lit "Update files").
Proof.
  apply (empty_cached_diffs_reach_the_backend
           {| repo := Cases.repo_unstaged
                        [Examples.entry (lit "src/a.py");
                         Examples.entry (lit "docs/c.md")];
              model := Examples.answer (lit "Update files") |} 300
           [] [Examples.entry (lit "src/a.py"); Examples.entry (lit "docs/c.md")]
           eq_refl eq_refl).
  - discriminate.
  - intros p _. reflexivity.
Defined.

(** ** The label of every path *)

Lemma eqb_single (a : char) :
  Str.eqb [a] [Pathlib.slash] = (a =? Pathlib.slash)%N.
Proof.
  destruct (a =? Pathlib.slash)%N eqn:E.
  - apply N.eqb_eq in E. subst a. apply eqb_refl.
  - apply eqb_false_iff. intros [= ->]. rewrite N.eqb_refl in E. discriminate E.
Qed.

Lemma segments_slash (r : str) :
  Cases.segments (Pathlib.slash :: r) = Cases.segments r.
Proof.
  unfold Cases.segments. cbn [split_char]. rewrite N.eqb_refl. reflexivity.
Qed.

(** The parts of a path are its root, when it has one, and its segments. *)
Lemma parts_by_root (p : str) :
  Pathlib.parts p
  = match Cases.path_root p with
    | [] => Cases.segments p
    | _ :: _ => Cases.path_root p :: Cases.segments p
    end.
Proof.
  destruct p as [|a r]; [reflexivity|].
  destruct (a =? Pathlib.slash)%N eqn:Ea.
  2:{ unfold Cases.path_root. cbn [Cases.leading_slashes]. rewrite Ea.
      unfold Pathlib.parts, Pathlib.tail_of.
      rewrite splitroot_relative by (rewrite N.eqb_sym; exact Ea). reflexivity. }
  apply N.eqb_eq in Ea. subst a.
  destruct r as [|b r2]; [reflexivity|].
  destruct (b =? Pathlib.slash)%N eqn:Eb.
  2:{ unfold Cases.path_root. cbn [Cases.leading_slashes].
      rewrite N.eqb_refl, Eb. rewrite segments_slash.
      unfold Pathlib.parts, Pathlib.tail_of, Pathlib.splitroot.
      cbn [firstn skipn]. rewrite eqb_refl, eqb_single, Eb. reflexivity. }
  apply N.eqb_eq in Eb. subst b.
  destruct r2 as [|c r3]; [reflexivity|].
  destruct (c =? Pathlib.slash)%N eqn:Ec.
  2:{ unfold Cases.path_root. cbn [Cases.leading_slashes].
      rewrite !N.eqb_refl, Ec. rewrite !segments_slash.
      unfold Pathlib.parts, Pathlib.tail_of, Pathlib.splitroot.
      cbn [firstn skipn]. rewrite !eqb_refl, eqb_single, Ec. reflexivity. }
  apply N.eqb_eq in Ec. subst c.
  unfold Cases.path_root. cbn [Cases.leading_slashes]. rewrite !N.eqb_refl.
  rewrite (segments_slash (Pathlib.slash :: Pathlib.slash :: r3)).
  unfold Pathlib.parts, Pathlib.tail_of, Pathlib.splitroot.
  cbn [firstn skipn]. rewrite !eqb_refl. reflexivity.
Qed.

Lemma path_label_eq (f : str) :
  (if 1 <? length (Pathlib.parts f) then hd [] (Pathlib.parts f) else misc)
  = Cases.path_label f.
Proof.
  rewrite parts_by_root. unfold Cases.path_label, Cases.claimed_label.
  destruct (Cases.path_root f) as [|r0 rr];
    destruct (Cases.segments f) as [|x [|y l]]; reflexivity.
Qed.

(** C3, amended: [_determine_scope] returns "misc" for no path; otherwise
    it returns the label that occurs most often among the labels the paths
    contribute, the one met first among labels of equal greatest
    frequency.  The segments of a path being its non-empty components other
    than "." between slashes, a relative path contributes its first segment
    when it has more than one and "misc" when it has not; an absolute path
    contributes its root, "/" or "//" for exactly two leading slashes, when
    it has a segment, and "misc" when it has none.  The paths src/a.py,
    src/b.py, docs/c.md give "src", the path readme.md gives "misc". *)
Theorem determine_scope_by_label (changed_files : list str) :
  let dirs := map Cases.path_label changed_files in
  (changed_files = [] -> _determine_scope changed_files = Return (lit "misc"))
  /\ (changed_files <> [] ->
      exists scope,
        _determine_scope changed_files = Return scope
        /\ In scope dirs
        /\ (forall d, Spec.count d dirs <= Spec.count scope dirs)
        /\ (forall d, Spec.count d dirs = Spec.count scope dirs ->
                      Spec.index_of scope dirs <= Spec.index_of d dirs))
  /\ (forall p, Cases.path_root p = [] ->
                Cases.path_label p = Cases.claimed_label p)
  /\ _determine_scope [lit "src/a.py"; lit "src/b.py"; lit "docs/c.md"]
     = Return (lit "src")
  /\ _determine_scope [lit "readme.md"] = Return (lit "misc")
  /\ _determine_scope [] = Return (lit "misc").
Proof.
  intros dirs. split; [|split; [|split; [|repeat split; reflexivity]]].
  - intros ->. reflexivity.
  - intros Hne. destruct changed_files as [|f fs]; [contradiction|].
    unfold _determine_scope. cbv zeta. subst dirs.
    rewrite (map_ext _ _ path_label_eq (f :: fs)).
    change (@map str (list char)) with (@map str str).
    destruct (most_common_first (map Cases.path_label (f :: fs)))
      as (top & Htop & Hin & Hmax & Hfirst).
    + discriminate.
    + rewrite Htop. exists (fst top). auto.
  - intros p Hroot. unfold Cases.path_label. rewrite Hroot. reflexivity.
Qed.

Lemma determine_scope_by_label_witness :
  exists scope,
    _determine_scope [lit "docs/x.md"; lit "/etc/hosts"; lit "//net/f"; lit "docs/y.md"]
      = Return scope
    /\ In scope [lit "docs"; lit "/"; lit "//"; lit "docs"]
    /\ Cases.path_label (lit "src/a.py") = Cases.claimed_label (lit "src/a.py").
Proof.
  pose proof (determine_scope_by_label
                [lit "docs/x.md"; lit "/etc/hosts"; lit "//net/f"; lit "docs/y.md"])
    as (_ & H & Hlabel & _).
  destruct (H ltac:(discriminate)) as (scope & Hs & Hin & _).
  exists scope. split; [exact Hs|]. split; [exact Hin|].
  apply Hlabel. reflexivity.
Defined.

(** C3 as stated fails on a file directly under the root: the path
    /readme.md has the single segment readme.md, for which the claim gives
    "misc", and [_determine_scope] returns "/". *)
Lemma file_under_root_counterexample :
  ~ (forall changed_files : list str,
       changed_files <> [] ->
       exists scope,
         _determine_scope changed_files = Return scope
         /\ In scope (map Cases.claimed_label changed_files)
         /\ (forall d, Spec.count d (map Cases.claimed_label changed_files)
                       <= Spec.count scope (map Cases.claimed_label changed_files))
         /\ (forall d,
               Spec.count d (map Cases.claimed_label changed_files)
               = Spec.count scope (map Cases.claimed_label changed_files) ->
               Spec.index_of scope (map Cases.claimed_label changed_files)
               <= Spec.index_of d (map Cases.claimed_label changed_files))).
Proof.
  intros H.
  destruct (H [lit "/readme.md"] ltac:(discriminate)) as (scope & Hs & Hin & _).
  vm_compute in Hs. injection Hs as <-.
  vm_compute in Hin. destruct Hin as [E|[]]. discriminate E.
Qed.

(** ** The model name and the constructor *)

(** C7: the constructor does not check the model name: whenever the
    construction of the model returns, for a name of the backend's listing
    or not, the constructor returns the analyzer and never reads the
    listing; no error naming the available models is raised. *)
Theorem model_name_is_not_checked
    (git_Repo : str -> result Git.Repo) (genai : Genai.Backend)
    (repo_path : str) (api_key : option str) (model_name : str)
    (r : Git.Repo) (m : Genai.GenerativeModel) :
  git_Repo repo_path = Return r ->
  Genai.new_model genai model_name = Return m ->
  outcome (__init__ git_Repo genai repo_path api_key model_name)
    = Return {| repo := r; model := m |}
  /\ ~ In EvListModels (trace (__init__ git_Repo genai repo_path api_key model_name)).
Proof.
  intros Hr Hm. unfold __init__. rewrite Hr, Hm.
  destruct api_key as [k|]; [destruct (truthy k)|]; (split; [reflexivity|]);
    simpl; intuition discriminate.
Qed.

Lemma model_name_is_not_checked_witness :
  existsb (Str.eqb (lit "gemini-9"))
    (map Genai.name [ {| Genai.name := lit "models/gemini-2.0-flash" |} ]) = false
  /\ Genai.list_models (Cases.permissive_backend [lit "models/gemini-2.0-flash"])
     = Return [ {| Genai.name := lit "models/gemini-2.0-flash" |} ]
  /\ outcome (__init__ Examples.open_repo
                (Cases.permissive_backend [lit "models/gemini-2.0-flash"])
                default_repo_path None (lit "gemini-9"))
     = Return {| repo := Examples.repo_with []; model := Examples.answer [] |}.
Proof.
  split; [reflexivity|]. split; [reflexivity|].
  apply (proj1 (model_name_is_not_checked Examples.open_repo
                  (Cases.permissive_backend [lit "models/gemini-2.0-flash"])
                  default_repo_path None (lit "gemini-9")
                  (Examples.repo_with []) (Examples.answer []) eq_refl eq_refl)).
Defined.

(** ** Entries of the second query *)

(** C9: entries that only the second query lists, with an empty cached
    diff, are collected like staged changes: when the index does not differ
    from HEAD and every such entry has an empty cached diff,
    [get_staged_changes] returns the mapping of their paths to the empty
    string, which is not empty as soon as one entry has a source path, and
    [generate_commit_message] then calls the backend. *)
Theorem unstaged_entries_are_collected (self : DiffAnalyzer)
    (new_entries : list Git.Diff) :
  Git.index_diff (repo self) (Some (lit "HEAD")) = Return [] ->
  Git.index_diff (repo self) None = Return new_entries ->
  (forall p, In p (Spec.source_paths new_entries) ->
             Git.git_diff (repo self) [lit "--cached"; p] = Return []) ->
  outcome (get_staged_changes self)
    = Return (map (fun p => (p, @nil char))
                  (Spec.dedup (Spec.source_paths new_entries)))
  /\ (Spec.source_paths new_entries <> [] ->
      map (fun p => (p, @nil char)) (Spec.dedup (Spec.source_paths new_entries))
        <> []
      /\ forall max_tokens,
           exists prompt,
             filter is_generate (trace (generate_commit_message self max_tokens))
             = [EvGenerateContent prompt (generation_config max_tokens)]).
Proof.
  intros Hh Hn Hc.
  assert (Hg : outcome (get_staged_changes self)
               = Return (map (fun p => (p, @nil char))
                             (Spec.dedup (Spec.source_paths new_entries)))).
  { unfold get_staged_changes. rewrite Hh, Hn.
    pose proof (loop_of_empty_diffs self new_entries [] Hc) as Hl.
    cbn [Spec.dedup map app] in Hl.
    unfold call, bind at 1 2. cbn [app].
    destruct (for_each _ _ _) as [r t]. exact Hl. }
  split; [exact Hg|]. intros Hne.
  assert (Hm : map (fun p => (p, @nil char))
                   (Spec.dedup (Spec.source_paths new_entries)) <> []).
  { intros E. apply map_eq_nil in E.
    apply (proj1 (dedup_nil (Spec.source_paths new_entries))) in E.
    contradiction. }
  split; [exact Hm|]. intros max_tokens. eexists.
  rewrite (generate_trace self max_tokens _ Hg Hm), filter_app.
  rewrite (quiet_filter _ (get_staged_changes_quiet self)). reflexivity.
Qed.

Lemma unstaged_entries_are_collected_witness :
  outcome (get_staged_changes
             {| repo := Cases.repo_unstaged [Examples.entry (lit "src/a.py")];
                model := Examples.answer (lit "Update a.py") |})
  = Return [(lit "src/a.py", [])].
Proof.
  apply (proj1 (unstaged_entries_are_collected
                  {| repo := Cases.repo_unstaged [Examples.entry (lit "src/a.py")];
                     model := Examples.answer (lit "Update a.py") |}
                  [Examples.entry (lit "src/a.py")] eq_refl eq_refl
                  (fun p _ => eq_refl))).
Defined.
